(** * SunSpec core of mbmd: register addressing, common block, block splitters

    A shallow embedding of [internal/meters/sunspec.go] together with the
    part of the Go runtime it leans on (byte slices with length and
    capacity, [encoding/binary], [math], [strings]).  Go's [uint16] and [int]
    arithmetic is written over [Z] with the wrap-around spelled out, a call
    that may hit a run-time panic returns an [outcome], and [float64] is the
    kernel's binary64. *)

From Stdlib Require Import Strings.Byte Strings.Ascii Strings.String.
From Stdlib Require Import ZArith List Lia Bool Sorting.Permutation.
From Stdlib Require Import Floats.PrimFloat Floats.FloatOps Floats.FloatAxioms Numbers.Cyclic.Int63.Uint63.
Import ListNotations.

Set Warnings "-inexact-float".
Local Open Scope Z_scope.

(** ** Outcome of a Go call: it returns, or the goroutine panics *)

Inductive outcome (A : Type) : Type :=
| Returns (a : A)
| Panics.

Arguments Returns {A} a.
Arguments Panics {A}.

Definition bind {A B : Type} (o : outcome A) (k : A -> outcome B) : outcome B :=
  match o with
  | Returns a => k a
  | Panics => Panics
  end.

Notation "x <- c ;; k" := (bind c (fun x => k))
  (at level 61, c at next level, right associativity).

(** ** Byte slices

    A Go slice sees [elems] (its length) and may be re-sliced into [spare],
    the rest of the backing array up to its capacity. *)

Record bytes : Type := mkBytes { elems : list byte; spare : list byte }.

Definition backing (b : bytes) : list byte := elems b ++ spare b.

Definition len (b : bytes) : Z := Z.of_nat (length (elems b)).

Definition cap (b : bytes) : Z := Z.of_nat (length (backing b)).

(** [b[lo:]]: the upper bound defaults to [len(b)]. *)
Definition slice_from (b : bytes) (lo : Z) : outcome bytes :=
  if (0 <=? lo) && (lo <=? len b)
  then Returns (mkBytes (skipn (Z.to_nat lo) (elems b)) (spare b))
  else Panics.

(** [b[lo:hi]]: on a slice the upper bound is checked against [cap(b)]. *)
Definition slice_range (b : bytes) (lo hi : Z) : outcome bytes :=
  if (0 <=? lo) && (lo <=? hi) && (hi <=? cap b)
  then Returns (mkBytes (firstn (Z.to_nat (hi - lo)) (skipn (Z.to_nat lo) (backing b)))
                        (skipn (Z.to_nat hi) (backing b)))
  else Panics.

Definition byte_val (x : byte) : Z := Z.of_N (Byte.to_N x).

(** The big-endian value of two bytes, as arithmetic. *)
Definition be16 (b0 b1 : byte) : Z := 256 * byte_val b0 + byte_val b1.

(** Conversion [string(b)] of a byte slice. *)
Definition string_of_bytes (b : bytes) : string := string_of_list_byte (elems b).

(** ** Fixed-width integers *)

Definition uint16 (z : Z) : Z := z mod 65536.

(** Conversion [int16(u)] of a [uint16]: same bits, two's complement. *)
Definition int16 (u : Z) : Z := if u <? 32768 then u else u - 65536.

(** Go's [int], 64 bits wide: the value the result of an operation on
    [int] wraps to, in two's complement. *)
Definition go_int (z : Z) : Z := (z + 2 ^ 63) mod 2 ^ 64 - 2 ^ 63.

(** ** Package [encoding/binary] *)

Module binary.

Definition BigEndian_Uint16 (b : bytes) : outcome Z :=
  match elems b with
  | b0 :: b1 :: _ => Returns (Z.lor (byte_val b1) (Z.shiftl (byte_val b0) 8))
  | _ => Panics
  end.

Definition BigEndian_Uint32 (b : bytes) : outcome Z :=
  match elems b with
  | b0 :: b1 :: b2 :: b3 :: _ =>
      Returns (Z.lor (Z.lor (Z.lor (byte_val b3) (Z.shiftl (byte_val b2) 8))
                            (Z.shiftl (byte_val b1) 16))
                     (Z.shiftl (byte_val b0) 24))
  | _ => Panics
  end.

End binary.

(** ** Package [math] *)

Definition float64 : Set := float.

(** Conversion [float64(u)] of an unsigned integer below 2^63. *)
Definition float64_of_uint (u : Z) : float64 := PrimFloat.of_uint63 (Uint63.of_Z u).

Module math.

Definition NaN : float64 := PrimFloat.nan.

Definition IsNaN (f : float64) : bool := negb (PrimFloat.eqb f f).

Definition Inf : float64 := PrimFloat.infinity.

Definition pow10tab : list float64 :=
  [ 1e00; 1e01; 1e02; 1e03; 1e04; 1e05; 1e06; 1e07; 1e08; 1e09;
    1e10; 1e11; 1e12; 1e13; 1e14; 1e15; 1e16; 1e17; 1e18; 1e19;
    1e20; 1e21; 1e22; 1e23; 1e24; 1e25; 1e26; 1e27; 1e28; 1e29;
    1e30; 1e31 ]%float.

Definition pow10postab32 : list float64 :=
  [ 1e00; 1e32; 1e64; 1e96; 1e128; 1e160; 1e192; 1e224; 1e256; 1e288 ]%float.

Definition pow10negtab32 : list float64 :=
  [ 1e-00; 1e-32; 1e-64; 1e-96; 1e-128; 1e-160; 1e-192; 1e-224; 1e-256;
    1e-288; 1e-320 ]%float.

Definition at_index (tab : list float64) (i : Z) : float64 :=
  nth (Z.to_nat i) tab 0%float.

(** [math.Pow10(n)], by the two tables of the Go library. *)
Definition Pow10 (n : Z) : float64 :=
  if (0 <=? n) && (n <=? 308)
  then PrimFloat.mul (at_index pow10postab32 (n / 32)) (at_index pow10tab (n mod 32))
  else if (-323 <=? n) && (n <=? 0)
  then PrimFloat.div (at_index pow10negtab32 ((- n) / 32)) (at_index pow10tab ((- n) mod 32))
  else if 0 <? n then Inf
  else 0%float.

End math.

(** ** Package [strings] *)

Module strings.

Fixpoint contains_char (cutset : string) (c : ascii) : bool :=
  match cutset with
  | EmptyString => false
  | String d rest => Ascii.eqb c d || contains_char rest c
  end.

(** [strings.TrimRight(s, cutset)] for an ASCII cutset: the trailing bytes
    of [s] that belong to [cutset] are removed. *)
Fixpoint TrimRight (s cutset : string) : string :=
  match s with
  | EmptyString => EmptyString
  | String c rest =>
      match TrimRight rest cutset with
      | EmptyString =>
          if contains_char cutset c then EmptyString else String c EmptyString
      | kept => String c kept
      end
  end.

End strings.

(** ** Package [errors] *)

Definition error : Set := string.

Definition errors_New (msg : string) : error := msg.

(** ** Constants of sunspec.go *)

Definition sunspecBase : Z := 40000.
Definition sunspecID : Z := 1.
Definition sunspecModelID : Z := 3.
Definition sunspecManufacturer : Z := 5.
Definition sunspecModel : Z := 21.
Definition sunspecVersion : Z := 45.
Definition sunspecSerial : Z := 53.

Definition sunsSignature : Z := 0x53756e53.

Record SunSpecDeviceDescriptor : Set := mkDescriptor
  { Manufacturer : string;
    Model : string;
    Version : string;
    Serial : string }.

(** The zero value [SunSpecDeviceDescriptor{}]. *)
Definition zero_descriptor : SunSpecDeviceDescriptor :=
  mkDescriptor EmptyString EmptyString EmptyString EmptyString.

(** The cutset [" \x00"]: a space and a null byte. *)
Definition space_and_null : string :=
  String " "%char (String "000"%char EmptyString).

Definition RTUUint16ToFloat64WithNaN (b : bytes) : outcome float64 :=
  u <- binary.BigEndian_Uint16 b ;;
  if u =? 0xffff then Returns math.NaN else Returns (float64_of_uint u).

(** [reg] and [len] are Go [int]s: sums, differences and products wrap. *)
Definition stringDecode (b : bytes) (reg len : Z) : outcome string :=
  let start := go_int (2 * go_int (reg - 1)) in
  let end_ := go_int (2 * go_int (go_int (reg + len) - 1)) in
  s <- slice_range b start (go_int (end_ - 1)) ;;
  Returns (strings.TrimRight (string_of_bytes s) space_and_null).

Definition DecodeSunSpecCommonBlock (b : bytes)
  : outcome (SunSpecDeviceDescriptor * option error) :=
  let res := zero_descriptor in
  if len b <? sunspecSerial + 2 * 16
  then Returns (res, Some (errors_New "Could not read SunSpec device descriptor"))
  else
    head <- slice_from b (sunspecID - 1) ;;
    u <- binary.BigEndian_Uint32 head ;;
    if negb (u =? sunsSignature)
    then Returns (res, Some (errors_New "Invalid SunSpec device signature"))
    else
      manufacturer <- stringDecode b sunspecManufacturer 16 ;;
      model <- stringDecode b sunspecModel 16 ;;
      version <- stringDecode b sunspecVersion 8 ;;
      serial <- stringDecode b sunspecSerial 16 ;;
      Returns (mkDescriptor manufacturer model version serial, None).

(** ** Types declared in other files of the package *)

Module SplitResult.

(** Modelled from the spec: the [SplitResult] struct, declared outside
    sunspec.go: one decoded reading, with its absolute register address, the
    originating measurement and a floating-point value. *)
Record t (Measurement : Type) : Type := mk
  { OpCode : Z;
    IEC61850 : Measurement;
    Value : float64 }.

Arguments mk {Measurement} _ _ _.
Arguments OpCode {Measurement} _.
Arguments IEC61850 {Measurement} _.
Arguments Value {Measurement} _.

End SplitResult.

(** The type [Splitter]: a function from the returned block to its readings. *)
Definition Splitter (Measurement : Type) : Type :=
  bytes -> outcome (list (SplitResult.t Measurement)).

Module Operation.

(** Modelled from the spec: the [Operation] struct, declared outside
    sunspec.go: function code, absolute starting register, register count,
    the measurement, and a value decoder or a splitter ([None] is Go's nil). *)
Record t (Measurement : Type) : Type := mk
  { FuncCode : Z;
    OpCode : Z;
    ReadLen : Z;
    IEC61850 : Measurement;
    Transform : option (bytes -> outcome float64);
    Splitter : option (Splitter Measurement) }.

Arguments mk {Measurement} _ _ _ _ _ _.
Arguments FuncCode {Measurement} _.
Arguments OpCode {Measurement} _.
Arguments ReadLen {Measurement} _.
Arguments IEC61850 {Measurement} _.
Arguments Transform {Measurement} _.
Arguments Splitter {Measurement} _.

End Operation.

(** Modelled from the spec: the embedded [MeasurementMapping], declared
    outside sunspec.go; its method [Opcode] resolves a measurement to its
    model-relative register offset, a [uint16]. *)
Record SunSpecCore (Measurement : Type) : Type := mkCore
  { Opcode : Measurement -> Z }.

Arguments mkCore {Measurement} _.
Arguments Opcode {Measurement} _ _.

(** The offsets a core resolves are [uint16] values. *)
Definition Opcode_uint16 {Measurement : Type} (p : SunSpecCore Measurement) : Prop :=
  forall m, 0 <= Opcode p m < 65536.

Section SunSpec.

(** The measurement taxonomy, the function code [ReadHoldingReg], the
    measurement [Split] and the zero value of the measurement type come from
    other files of the package. *)
Variable Measurement : Type.
Variable ReadHoldingReg : Z.
Variable Split : Measurement.
Variable NoMeasurement : Measurement.

Variable p : SunSpecCore Measurement.

Definition GetSunSpecCommonBlock : Operation.t Measurement :=
  Operation.mk ReadHoldingReg sunspecBase sunspecSerial NoMeasurement None None.

Definition snip (iec : Measurement) (readlen : Z) : Operation.t Measurement :=
  Operation.mk ReadHoldingReg
               (uint16 (uint16 (sunspecBase + Opcode p iec) - 1))
               readlen iec None None.

(** One turn of the loop of [minMax]. *)
Definition minMax_step (acc : Z * Z) (i : Measurement) : Z * Z :=
  let '(min, max) := acc in
  let op := Opcode p i in
  let min := if op <? min then op else min in
  let max := if op >? max then op else max in
  (min, max).

Definition minMax (iec : list Measurement) : Z * Z :=
  fold_left minMax_step iec (0xFFFF, 0x0000).

Definition scaleSnip16 (splitter : list Measurement -> Splitter Measurement)
  (iecs : list Measurement) : Operation.t Measurement :=
  let '(min, max) := minMax iecs in
  Operation.mk ReadHoldingReg
               (uint16 (uint16 (sunspecBase + min) - 1))
               (uint16 (uint16 (max - min) + 2))
               Split None (Some (splitter iecs)).

Definition scaleSnip32 (splitter : list Measurement -> Splitter Measurement)
  (iecs : list Measurement) : Operation.t Measurement :=
  let op := scaleSnip16 splitter iecs in
  Operation.mk (Operation.FuncCode op) (Operation.OpCode op)
               (uint16 (uint16 (uint16 (Operation.ReadLen op - 1) * 2) + 1))
               (Operation.IEC61850 op) (Operation.Transform op) (Operation.Splitter op).

(** The loop of the splitter closure: [res] is the slice built so far. *)
Fixpoint split_loop (dataSize : Z) (valFunc : bytes -> outcome float64)
  (min : Z) (scaler : float64) (b : bytes)
  (iecs : list Measurement) (res : list (SplitResult.t Measurement))
  : outcome (list (SplitResult.t Measurement)) :=
  match iecs with
  | [] => Returns res
  | iec :: rest =>
      let opcode := Opcode p iec in
      chunk <- slice_from b (uint16 (dataSize * uint16 (opcode - min))) ;;
      val <- valFunc chunk ;;
      if math.IsNaN val
      then split_loop dataSize valFunc min scaler b rest res
      else
        let op := SplitResult.mk (uint16 (uint16 (sunspecBase + opcode) - 1))
                                 iec (PrimFloat.mul scaler val) in
        split_loop dataSize valFunc min scaler b rest (res ++ [op])
  end.

Definition mkBlockSplitter (dataSize : Z) (valFunc : bytes -> outcome float64)
  (iecs : list Measurement) : Splitter Measurement :=
  let '(min, _) := minMax iecs in
  fun b =>
    last <- slice_from b (len b - 2) ;;
    e <- binary.BigEndian_Uint16 last ;;
    let exp := int16 e in
    let scaler := math.Pow10 exp in
    split_loop dataSize valFunc min scaler b iecs [].

Definition mkSplitUint16 (iecs : list Measurement) : Splitter Measurement :=
  mkBlockSplitter 2 RTUUint16ToFloat64WithNaN iecs.

(** *** Vocabulary for the statements about blocks *)

(** The resolved offsets of a list of measurements. *)
Definition offsets (iecs : list Measurement) : list Z := map (Opcode p) iecs.

(** What one turn of the splitter's loop reads for a measurement: the value
    decoded at its byte index, or a panic. *)
Definition reading (dataSize : Z) (valFunc : bytes -> outcome float64)
  (min : Z) (b : bytes) (iec : Measurement) : outcome float64 :=
  chunk <- slice_from b (uint16 (dataSize * uint16 (Opcode p iec - min))) ;;
  valFunc chunk.

(** What one turn of the loop appends to the result. *)
Definition emitted (dataSize : Z) (valFunc : bytes -> outcome float64)
  (min : Z) (scaler : float64) (b : bytes) (iec : Measurement)
  : list (SplitResult.t Measurement) :=
  match reading dataSize valFunc min b iec with
  | Returns val =>
      if math.IsNaN val then []
      else [SplitResult.mk (uint16 (uint16 (sunspecBase + Opcode p iec) - 1))
                           iec (PrimFloat.mul scaler val)]
  | Panics => []
  end.

(** The measurements that are not skipped: their reading is a number. *)
Definition kept (dataSize : Z) (valFunc : bytes -> outcome float64)
  (min : Z) (b : bytes) (iec : Measurement) : bool :=
  match reading dataSize valFunc min b iec with
  | Returns val => negb (math.IsNaN val)
  | Panics => false
  end.

End SunSpec.

Arguments GetSunSpecCommonBlock {Measurement} _ _.
Arguments snip {Measurement} _ _ _ _.
Arguments minMax_step {Measurement} _ _ _.
Arguments minMax {Measurement} _ _.
Arguments scaleSnip16 {Measurement} _ _ _ _ _.
Arguments scaleSnip32 {Measurement} _ _ _ _ _.
Arguments split_loop {Measurement} _ _ _ _ _ _ _ _.
Arguments mkBlockSplitter {Measurement} _ _ _ _.
Arguments mkSplitUint16 {Measurement} _ _.
Arguments offsets {Measurement} _ _.
Arguments reading {Measurement} _ _ _ _ _ _.
Arguments emitted {Measurement} _ _ _ _ _ _ _.
Arguments kept {Measurement} _ _ _ _ _ _.

(** [mn] is the least element of [l], [mx] its greatest. *)
Definition is_least (l : list Z) (mn : Z) : Prop :=
  In mn l /\ Forall (fun o => mn <= o) l.

Definition is_greatest (l : list Z) (mx : Z) : Prop :=
  In mx l /\ Forall (fun o => o <= mx) l.

(** The byte index the splitter computes for an offset, in [uint16]. *)
Definition block_index (dataSize min opcode : Z) : Z :=
  uint16 (dataSize * uint16 (opcode - min)).

(** The two raw bytes of a block at a byte index, when it has them. *)
Definition raw_bytes (b : bytes) (i : Z) : option (byte * byte) :=
  match skipn (Z.to_nat i) (elems b) with
  | b0 :: b1 :: _ => Some (b0, b1)
  | _ => None
  end.

(** The raw bytes at an index are the sentinel 0xFF 0xFF. *)
Definition sentinel_at (b : bytes) (i : Z) : bool :=
  match raw_bytes b i with
  | Some (b0, b1) => Byte.eqb b0 xff && Byte.eqb b1 xff
  | None => false
  end.

(** The [uint16] held by the last two bytes of a block of two bytes or more. *)
Definition last_uint16 (b : bytes) : Z :=
  match skipn (length (elems b) - 2) (elems b) with
  | b0 :: b1 :: _ => be16 b0 b1
  | _ => 0
  end.

(** A value decoder looks at the bytes of its slice and at nothing else. *)
Definition reads_elems_only (valFunc : bytes -> outcome float64) : Prop :=
  forall s1 s2, elems s1 = elems s2 -> valFunc s1 = valFunc s2.

Definition is_returns {A : Type} (o : outcome A) : bool :=
  match o with
  | Returns _ => true
  | Panics => false
  end.

(** A core over two measurements, resolved to the offsets 1 and 65535. *)
Definition wide_core : SunSpecCore bool :=
  mkCore (fun m : bool => if m then 65535 else 1).

(** A core over the measurements 10 and 12, resolved to themselves. *)
Definition example_core : SunSpecCore Z :=
  mkCore (fun m : Z => if m =? 10 then 10 else 12).

(** ** Checking a boolean property on a range of integers

    [check_range n P lo] evaluates [P] on the [2^n] integers from [lo] on. *)

Fixpoint check_range (n : nat) (P : Z -> bool) (lo : Z) : bool :=
  match n with
  | O => P lo
  | S k => check_range k P lo && check_range k P (lo + 2 ^ Z.of_nat k)
  end.

(** ** The common block on the wire *)

(** The four bytes "SunS". *)
Definition suns : list byte := [x53; x75; x6e; x53].

(** The first four bytes of the buffer are the SunS signature. *)
Definition has_signature (b : bytes) : Prop := firstn 4 (elems b) = suns.

(** The two errors of the common block decoder. *)
Definition err_too_short : error :=
  errors_New "Could not read SunSpec device descriptor".

Definition err_invalid_signature : error :=
  errors_New "Invalid SunSpec device signature".

(** The bytes a field of [len] registers at register [reg] occupies:
    [2*len] bytes from byte offset [2*(reg-1)] of the backing array. *)
Definition field_bytes (b : bytes) (reg len : Z) : list byte :=
  firstn (Z.to_nat (2 * len)) (skipn (Z.to_nat (2 * (reg - 1))) (backing b)).

(** The bytes [stringDecode] converts: one byte short of the field. *)
Definition decoded_bytes (b : bytes) (reg len : Z) : list byte :=
  firstn (Z.to_nat (2 * len - 1)) (skipn (Z.to_nat (2 * (reg - 1))) (backing b)).

Definition trim (l : list byte) : string :=
  strings.TrimRight (string_of_list_byte l) space_and_null.

(** The padding bytes of a string field: space and null. *)
Definition is_padding (c : byte) : bool := Byte.eqb c x20 || Byte.eqb c x00.

(** A complete common block whose fields all end in padding. *)
Definition padded_block : bytes :=
  mkBytes (suns ++ [x00; x01; x00; x42]
           ++ list_byte_of_string "Fronius" ++ repeat x20 25
           ++ list_byte_of_string "PV-5000" ++ repeat x20 25
           ++ repeat x00 16
           ++ list_byte_of_string "1.2.3" ++ repeat x00 11
           ++ list_byte_of_string "SN0042" ++ repeat x20 26) [].

(** A buffer of exactly the minimum length the decoder accepts (85 bytes, no
    spare capacity): the signature followed by spaces. *)
Definition min_length_block : bytes :=
  mkBytes (suns ++ repeat x20 81) [].

(** A 120-byte buffer with the signature: long enough for the length guard
    and for the first three fields. *)
Definition short_serial_block : bytes :=
  mkBytes (suns ++ repeat x00 116) [].

(** A buffer of the size [GetSunSpecCommonBlock] requests: 53 registers. *)
Definition requested_block : bytes :=
  mkBytes (suns ++ repeat x00 102) [].

(** A slice of the size [GetSunSpecCommonBlock] requests, 106 bytes, of a
    backing array that holds a complete common block of 136 bytes. *)
Definition roomy_requested_block : bytes :=
  mkBytes (firstn 106 (elems padded_block)) (skipn 106 (elems padded_block)).

(** A buffer of the requested size that does not begin with the signature. *)
Definition unsigned_requested_block : bytes :=
  mkBytes (repeat x00 106) [].

(** A complete common block of 68 registers whose manufacturer field uses
    all of its 32 bytes. *)
Definition full_width_manufacturer : string := "ABCDEFGHIJKLMNOPQRSTUVWXYZ012345".

Definition full_width_block : bytes :=
  mkBytes (suns ++ [x00; x01; x00; x42]
           ++ list_byte_of_string full_width_manufacturer
           ++ list_byte_of_string "PV-5000" ++ repeat x20 25
           ++ repeat x00 16
           ++ list_byte_of_string "1.2.3" ++ repeat x00 11
           ++ list_byte_of_string "SN0042" ++ repeat x20 26) [].

(** ** The other builders of sunspec.go *)

Section SunSpecBuilders.

Variable Measurement : Type.
Variable ReadHoldingReg : Z.
Variable p : SunSpecCore Measurement.

(** The value decoders of the package that are declared outside sunspec.go:
    the plain ones, and the constructors of the scaled ones. *)
Variable RTUUint16ToFloat64 : bytes -> outcome float64.
Variable MakeRTUScaledUint16ToFloat64 : float64 -> bytes -> outcome float64.
Variable RTUInt16ToFloat64 : bytes -> outcome float64.
Variable MakeRTUScaledInt16ToFloat64 : float64 -> bytes -> outcome float64.
Variable RTUUint32ToFloat64 : bytes -> outcome float64.
Variable MakeRTUScaledUint32ToFloat64 : float64 -> bytes -> outcome float64.

(** The assignment [snip.Transform = f]. *)
Definition set_Transform (snip : Operation.t Measurement)
  (f : bytes -> outcome float64) : Operation.t Measurement :=
  Operation.mk (Operation.FuncCode snip) (Operation.OpCode snip)
               (Operation.ReadLen snip) (Operation.IEC61850 snip)
               (Some f) (Operation.Splitter snip).

(** The variadic [scaler ...float64] is a list; [len(scaler) > 0] selects
    [scaler[0]]. *)
Definition snip16uint (iec : Measurement) (scaler : list float64)
  : Operation.t Measurement :=
  let snip := snip ReadHoldingReg p iec 1 in
  let snip := set_Transform snip RTUUint16ToFloat64 in
  match scaler with
  | [] => snip
  | s0 :: _ => set_Transform snip (MakeRTUScaledUint16ToFloat64 s0)
  end.

Definition snip16int (iec : Measurement) (scaler : list float64)
  : Operation.t Measurement :=
  let snip := snip ReadHoldingReg p iec 1 in
  let snip := set_Transform snip RTUInt16ToFloat64 in
  match scaler with
  | [] => snip
  | s0 :: _ => set_Transform snip (MakeRTUScaledInt16ToFloat64 s0)
  end.

Definition snip32 (iec : Measurement) (scaler : list float64)
  : Operation.t Measurement :=
  let snip := snip ReadHoldingReg p iec 2 in
  let snip := set_Transform snip RTUUint32ToFloat64 in
  match scaler with
  | [] => snip
  | s0 :: _ => set_Transform snip (MakeRTUScaledUint32ToFloat64 s0)
  end.

Definition mkSplitInt16 (iecs : list Measurement) : Splitter Measurement :=
  mkBlockSplitter p 2 RTUInt16ToFloat64 iecs.

Definition mkSplitUint32 (iecs : list Measurement) : Splitter Measurement :=
  mkBlockSplitter p 4 (MakeRTUScaledUint32ToFloat64 1000%float) iecs.

End SunSpecBuilders.

Arguments set_Transform {Measurement} _ _.
Arguments snip16uint {Measurement} _ _ _ _ _ _.
Arguments snip16int {Measurement} _ _ _ _ _ _.
Arguments snip32 {Measurement} _ _ _ _ _ _.
Arguments mkSplitInt16 {Measurement} _ _ _.
Arguments mkSplitUint32 {Measurement} _ _ _.

(** ** Further vocabulary *)

(** The last character of a string belongs to a cutset. *)
Fixpoint ends_in_cutset (s cutset : string) : bool :=
  match s with
  | EmptyString => false
  | String c EmptyString => strings.contains_char cutset c
  | String _ rest => ends_in_cutset rest cutset
  end.

(** Every character of a string belongs to a cutset. *)
Fixpoint only_cutset (s cutset : string) : bool :=
  match s with
  | EmptyString => true
  | String c rest => strings.contains_char cutset c && only_cutset rest cutset
  end.

(** The content of a field: the bytes of a string, then padding. *)
Definition field_of (s : string) (padding : list byte) : list byte :=
  list_byte_of_string s ++ padding.

(** A string that does not end in a space or a null byte, followed by one
    padding byte or more, each a space or a null byte, fills a field of [n]
    bytes. *)
Definition fills (n : nat) (s : string) (padding : list byte) : Prop :=
  (String.length s + length padding = n)%nat /\ padding <> [] /\
  forallb is_padding padding = true /\
  ends_in_cutset s space_and_null = false.

(** The layout of a common block: signature, two registers, manufacturer and
    model of 16 registers, eight registers, version of 8 registers, serial
    of 16 registers, and whatever follows. *)
Definition common_block (id options manufacturer model version serial rest : list byte)
  : list byte :=
  suns ++ id ++ manufacturer ++ model ++ options ++ version ++ serial ++ rest.

(** The [uint16] held by the two raw bytes at an index. *)
Definition raw_value (b : bytes) (i : Z) : Z :=
  match raw_bytes b i with
  | Some (b0, b1) => be16 b0 b1
  | None => 0
  end.

(** The integer a non-negative float64 without fraction stands for. *)
Definition float64_to_Z (f : float64) : Z :=
  match Prim2SF f with
  | SpecFloat.S754_finite false m e => Z.shiftl (Zpos m) e
  | _ => 0
  end.

(** A float64 that is zero or a finite number. *)
Definition is_finite_SF (x : SpecFloat.spec_float) : bool :=
  match x with
  | SpecFloat.S754_zero _ | SpecFloat.S754_finite _ _ _ => true
  | _ => false
  end.

(** A decoder of 4-byte values, as a stand-in for the 32-bit decoders. *)
Definition uint32_decoder (scaler : float64) (b : bytes) : outcome float64 :=
  u <- binary.BigEndian_Uint32 b ;;
  Returns (PrimFloat.div (float64_of_uint u) scaler).

(** * Properties *)

(** ** Integers and bytes *)

Lemma check_range_sound (n : nat) :
  forall (P : Z -> bool) (lo : Z),
    check_range n P lo = true ->
    forall z, lo <= z < lo + 2 ^ Z.of_nat n -> P z = true.
Proof.
  induction n as [|k IH]; intros P lo Hc z Hz.
  - simpl in Hc, Hz. replace z with lo by lia. exact Hc.
  - cbn [check_range] in Hc. apply andb_prop in Hc as [Hlow Hhigh].
    rewrite Nat2Z.inj_succ, Z.pow_succ_r in Hz by lia.
    destruct (Z_lt_le_dec z (lo + 2 ^ Z.of_nat k)) as [Hlt|Hge].
    + apply (IH P lo Hlow). lia.
    + apply (IH P _ Hhigh). lia.
Qed.

Lemma byte_val_range (x : byte) : 0 <= byte_val x < 256.
Proof.
  unfold byte_val. pose proof (Byte.to_N_bounded x). lia.
Qed.

Lemma byte_val_inj (x y : byte) : byte_val x = byte_val y -> x = y.
Proof.
  unfold byte_val. intros H. apply N2Z.inj in H.
  pose proof (Byte.of_to_N x) as Hx. rewrite H, Byte.of_to_N in Hx.
  congruence.
Qed.

Lemma byte_val_xff (x : byte) : byte_val x = 255 -> x = xff.
Proof.
  intros H. apply byte_val_inj. rewrite H. reflexivity.
Qed.

Lemma land_low_shifted (a c k : Z) :
  0 <= k -> 0 <= a < 2 ^ k -> Z.land a (Z.shiftl c k) = 0.
Proof.
  intros Hk Ha. apply Z.bits_inj'. intros n Hn.
  rewrite Z.land_spec, Z.bits_0.
  destruct (Z_lt_le_dec n k) as [Hlt|Hge].
  - rewrite (Z.shiftl_spec_low c k n Hlt). apply andb_false_r.
  - replace a with (a mod 2 ^ k) by (apply Z.mod_small; lia).
    rewrite Z.mod_pow2_bits_high by lia. reflexivity.
Qed.

Lemma lor_low_shifted (a c k : Z) :
  0 <= k -> 0 <= a < 2 ^ k -> Z.lor a (Z.shiftl c k) = a + c * 2 ^ k.
Proof.
  intros Hk Ha.
  rewrite <- Z.lxor_lor, <- Z.add_nocarry_lxor by (apply land_low_shifted; assumption).
  rewrite Z.shiftl_mul_pow2 by assumption. reflexivity.
Qed.

Lemma BigEndian_Uint16_value (b0 b1 : byte) (rest sp : list byte) :
  binary.BigEndian_Uint16 (mkBytes (b0 :: b1 :: rest) sp) = Returns (be16 b0 b1).
Proof.
  unfold binary.BigEndian_Uint16, be16. cbn [elems]. f_equal.
  rewrite lor_low_shifted by (pose proof (byte_val_range b1); lia).
  change (2 ^ 8) with 256. lia.
Qed.

Lemma be16_range (b0 b1 : byte) : 0 <= be16 b0 b1 < 65536.
Proof.
  unfold be16. pose proof (byte_val_range b0). pose proof (byte_val_range b1). lia.
Qed.

Lemma be16_sentinel (b0 b1 : byte) :
  be16 b0 b1 = 0xffff <-> b0 = xff /\ b1 = xff.
Proof.
  unfold be16. split.
  - intros H. pose proof (byte_val_range b0). pose proof (byte_val_range b1).
    split; apply byte_val_xff; lia.
  - intros [-> ->]. reflexivity.
Qed.

(** ** float64 *)

(** The conversion of a 16-bit value is a number. *)
Lemma float64_of_uint16_not_NaN (u : Z) :
  0 <= u < 65536 -> math.IsNaN (float64_of_uint u) = false.
Proof.
  intros Hu.
  assert (Hall : check_range 16 (fun z => negb (math.IsNaN (float64_of_uint z))) 0 = true)
    by (vm_compute; reflexivity).
  pose proof (check_range_sound 16 _ 0 Hall u) as Hz.
  apply negb_true_iff. apply Hz. simpl. lia.
Qed.

(** Scaling a 16-bit reading by 10^-1: the product does not depend on the
    order of its factors. *)
Lemma scale_by_tenth_comm (u : Z) :
  0 <= u < 65536 ->
  PrimFloat.mul (math.Pow10 (-1)) (float64_of_uint u) =
  PrimFloat.mul (float64_of_uint u) (math.Pow10 (-1)).
Proof.
  intros Hu.
  assert (Hall : check_range 16
            (fun z => Leibniz.eqb (PrimFloat.mul (math.Pow10 (-1)) (float64_of_uint z))
                                  (PrimFloat.mul (float64_of_uint z) (math.Pow10 (-1)))) 0 = true)
    by (vm_compute; reflexivity).
  pose proof (check_range_sound 16 _ 0 Hall u) as Hz.
  apply FloatAxioms.Leibniz.eqb_spec. apply Hz. simpl. lia.
Qed.

Lemma Pow10_minus_one : math.Pow10 (-1) = 0.1%float.
Proof. vm_compute. reflexivity. Qed.

(** ** Value decoder with the "not supported" sentinel *)

Lemma RTUUint16ToFloat64WithNaN_value (b0 b1 : byte) (rest sp : list byte) :
  RTUUint16ToFloat64WithNaN (mkBytes (b0 :: b1 :: rest) sp) =
  Returns (if be16 b0 b1 =? 0xffff then math.NaN else float64_of_uint (be16 b0 b1)).
Proof.
  unfold RTUUint16ToFloat64WithNaN. rewrite BigEndian_Uint16_value. cbn [bind].
  destruct (be16 b0 b1 =? 0xffff); reflexivity.
Qed.

(** C7: on a two-byte slice the decoder returns; its value is not-a-number
    exactly when both bytes are 0xFF, and in every other case it is the
    big-endian unsigned 16-bit value [256*b0 + b1] converted to float64. *)
Theorem RTUUint16ToFloat64WithNaN_sentinel (b0 b1 : byte) (sp : list byte) :
  exists v : float64,
    RTUUint16ToFloat64WithNaN (mkBytes [b0; b1] sp) = Returns v /\
    (math.IsNaN v = true <-> b0 = xff /\ b1 = xff) /\
    (b0 = xff /\ b1 = xff -> v = math.NaN) /\
    (~ (b0 = xff /\ b1 = xff) -> v = float64_of_uint (be16 b0 b1)).
Proof.
  rewrite RTUUint16ToFloat64WithNaN_value.
  destruct (be16 b0 b1 =? 0xffff) eqn:Hs; eexists; (split; [reflexivity|]).
  - apply Z.eqb_eq, be16_sentinel in Hs. repeat split; tauto.
  - assert (Hne : ~ (b0 = xff /\ b1 = xff)).
    { intros Hff. apply be16_sentinel in Hff. apply Z.eqb_neq in Hs. contradiction. }
    rewrite (float64_of_uint16_not_NaN _ (be16_range b0 b1)).
    repeat split; try tauto; intros; discriminate.
Qed.

(** ** Slices *)

Lemma len_le_cap (b : bytes) : len b <= cap b.
Proof.
  unfold len, cap, backing. rewrite length_app. lia.
Qed.

Lemma slice_from_zero (b : bytes) :
  slice_from b 0 = Returns (mkBytes (elems b) (spare b)).
Proof.
  unfold slice_from. replace (0 <=? len b) with true; [reflexivity|].
  symmetry. apply Z.leb_le. unfold len. lia.
Qed.

Lemma slice_range_returns (b : bytes) (lo hi : Z) :
  0 <= lo <= hi -> hi <= cap b ->
  slice_range b lo hi =
  Returns (mkBytes (firstn (Z.to_nat (hi - lo)) (skipn (Z.to_nat lo) (backing b)))
                   (skipn (Z.to_nat hi) (backing b))).
Proof.
  intros [Hlo Hhi] Hcap. unfold slice_range.
  rewrite (proj2 (Z.leb_le 0 lo) Hlo), (proj2 (Z.leb_le lo hi) Hhi),
    (proj2 (Z.leb_le hi (cap b)) Hcap).
  reflexivity.
Qed.

Lemma slice_range_panics (b : bytes) (lo hi : Z) :
  cap b < hi -> slice_range b lo hi = Panics.
Proof.
  intros Hcap. unfold slice_range.
  rewrite (proj2 (Z.leb_gt hi (cap b)) Hcap), andb_false_r. reflexivity.
Qed.

(** ** The common block decoder *)

Lemma go_int_small (z : Z) : - 2 ^ 63 <= z < 2 ^ 63 -> go_int z = z.
Proof.
  intros Hz. unfold go_int. rewrite Z.mod_small by lia. lia.
Qed.

(** For a register and a length of magnitude 2^60 at most, the [int]
    arithmetic of [stringDecode] does not wrap. *)
Lemma stringDecode_no_wrap (b : bytes) (reg len : Z) :
  - 2 ^ 60 <= reg <= 2 ^ 60 -> - 2 ^ 60 <= len <= 2 ^ 60 ->
  stringDecode b reg len =
  (s <- slice_range b (2 * (reg - 1)) (2 * (reg + len - 1) - 1) ;;
   Returns (strings.TrimRight (string_of_bytes s) space_and_null)).
Proof.
  intros Hreg Hlen. unfold stringDecode.
  rewrite (go_int_small (reg - 1)) by lia.
  rewrite (go_int_small (2 * (reg - 1))) by lia.
  rewrite (go_int_small (reg + len)) by lia.
  rewrite (go_int_small (reg + len - 1)) by lia.
  rewrite (go_int_small (2 * (reg + len - 1))) by lia.
  rewrite (go_int_small (2 * (reg + len - 1) - 1)) by lia.
  reflexivity.
Qed.

Lemma stringDecode_returns (b : bytes) (reg len : Z) :
  1 <= reg <= 2 ^ 60 -> 1 <= len <= 2 ^ 60 -> 2 * (reg + len - 1) - 1 <= cap b ->
  stringDecode b reg len = Returns (trim (decoded_bytes b reg len)).
Proof.
  intros Hreg Hlen Hcap. rewrite stringDecode_no_wrap by lia.
  unfold trim, decoded_bytes.
  rewrite slice_range_returns by lia. cbn [bind].
  unfold string_of_bytes. cbn [elems].
  replace (2 * (reg + len - 1) - 1 - 2 * (reg - 1)) with (2 * len - 1) by lia.
  reflexivity.
Qed.

Lemma stringDecode_panics (b : bytes) (reg len : Z) :
  - 2 ^ 60 <= reg <= 2 ^ 60 -> - 2 ^ 60 <= len <= 2 ^ 60 ->
  cap b < 2 * (reg + len - 1) - 1 -> stringDecode b reg len = Panics.
Proof.
  intros Hreg Hlen Hcap. rewrite stringDecode_no_wrap by assumption.
  rewrite slice_range_panics by assumption. reflexivity.
Qed.

Lemma Uint32_four_bytes (b0 b1 b2 b3 : byte) (rest sp : list byte) :
  binary.BigEndian_Uint32 (mkBytes (b0 :: b1 :: b2 :: b3 :: rest) sp) =
  Returns (byte_val b0 * 2 ^ 24 + byte_val b1 * 2 ^ 16 + byte_val b2 * 2 ^ 8 + byte_val b3).
Proof.
  unfold binary.BigEndian_Uint32. cbn [elems]. f_equal.
  pose proof (byte_val_range b0). pose proof (byte_val_range b1).
  pose proof (byte_val_range b2). pose proof (byte_val_range b3).
  rewrite (lor_low_shifted (byte_val b3)) by lia.
  rewrite (lor_low_shifted (byte_val b3 + _)) by lia.
  rewrite (lor_low_shifted (byte_val b3 + _ + _)) by lia.
  lia.
Qed.

(** The signature test of the decoder compares the first four bytes with
    "SunS". *)
Lemma signature_test (b0 b1 b2 b3 : byte) (rest sp : list byte) :
  (byte_val b0 * 2 ^ 24 + byte_val b1 * 2 ^ 16 + byte_val b2 * 2 ^ 8 + byte_val b3
   =? sunsSignature) = true <->
  has_signature (mkBytes (b0 :: b1 :: b2 :: b3 :: rest) sp).
Proof.
  unfold has_signature, suns. cbn [elems firstn]. rewrite Z.eqb_eq. split.
  - intros H. unfold sunsSignature in H.
    pose proof (byte_val_range b0). pose proof (byte_val_range b1).
    pose proof (byte_val_range b2). pose proof (byte_val_range b3).
    assert (byte_val b0 = byte_val x53) by (change (byte_val x53) with 83; lia).
    assert (byte_val b1 = byte_val x75) by (change (byte_val x75) with 117; lia).
    assert (byte_val b2 = byte_val x6e) by (change (byte_val x6e) with 110; lia).
    assert (byte_val b3 = byte_val x53) by (change (byte_val x53) with 83; lia).
    repeat f_equal; apply byte_val_inj; assumption.
  - intros H. injection H as -> -> -> ->. reflexivity.
Qed.

(** Once the length guard is passed the buffer has its first four bytes. *)
Lemma long_block_head (b : bytes) :
  4 <= len b ->
  exists b0 b1 b2 b3 rest sp, b = mkBytes (b0 :: b1 :: b2 :: b3 :: rest) sp.
Proof.
  destruct b as [el sp]. unfold len. cbn [elems].
  destruct el as [|b0 [|b1 [|b2 [|b3 rest]]]]; cbn [length]; try lia.
  intros _. exists b0, b1, b2, b3, rest, sp. reflexivity.
Qed.

Lemma Decode_too_short (b : bytes) :
  len b < sunspecSerial + 2 * 16 ->
  DecodeSunSpecCommonBlock b = Returns (zero_descriptor, Some err_too_short).
Proof.
  intros Hlen. unfold DecodeSunSpecCommonBlock.
  rewrite (proj2 (Z.ltb_lt _ _) Hlen). reflexivity.
Qed.

Lemma Decode_invalid_signature (b : bytes) :
  sunspecSerial + 2 * 16 <= len b -> ~ has_signature b ->
  DecodeSunSpecCommonBlock b = Returns (zero_descriptor, Some err_invalid_signature).
Proof.
  intros Hlen Hsig. unfold DecodeSunSpecCommonBlock.
  rewrite (proj2 (Z.ltb_ge _ _) Hlen).
  change (sunspecID - 1) with 0. rewrite slice_from_zero. cbn [bind].
  destruct (long_block_head b) as (b0 & b1 & b2 & b3 & rest & sp & ->).
  { unfold sunspecSerial in Hlen. lia. }
  cbn [elems spare]. rewrite Uint32_four_bytes. cbn [bind].
  destruct (_ =? sunsSignature) eqn:Hu; [|reflexivity].
  apply (signature_test b0 b1 b2 b3 rest sp) in Hu. contradiction.
Qed.

(** With a valid signature the decoder goes on to the four fields. *)
Lemma Decode_fields (b : bytes) :
  sunspecSerial + 2 * 16 <= len b -> has_signature b ->
  DecodeSunSpecCommonBlock b =
  (manufacturer <- stringDecode b sunspecManufacturer 16 ;;
   model <- stringDecode b sunspecModel 16 ;;
   version <- stringDecode b sunspecVersion 8 ;;
   serial <- stringDecode b sunspecSerial 16 ;;
   Returns (mkDescriptor manufacturer model version serial, None)).
Proof.
  intros Hlen Hsig. unfold DecodeSunSpecCommonBlock.
  rewrite (proj2 (Z.ltb_ge _ _) Hlen).
  change (sunspecID - 1) with 0. rewrite slice_from_zero. cbn [bind].
  destruct (long_block_head b) as (b0 & b1 & b2 & b3 & rest & sp & ->).
  { unfold sunspecSerial in Hlen. lia. }
  cbn [elems spare]. rewrite Uint32_four_bytes. cbn [bind].
  apply (signature_test b0 b1 b2 b3 rest sp) in Hsig. rewrite Hsig. reflexivity.
Qed.

(** The decoder returns a descriptor as soon as the backing array holds 135
    bytes: each field is read up to, and without, its last byte. *)
Lemma Decode_returns (b : bytes) :
  sunspecSerial + 2 * 16 <= len b -> has_signature b -> 135 <= cap b ->
  DecodeSunSpecCommonBlock b =
  Returns (mkDescriptor (trim (decoded_bytes b sunspecManufacturer 16))
                        (trim (decoded_bytes b sunspecModel 16))
                        (trim (decoded_bytes b sunspecVersion 8))
                        (trim (decoded_bytes b sunspecSerial 16)), None).
Proof.
  intros Hlen Hsig Hcap. rewrite Decode_fields by assumption.
  unfold sunspecManufacturer, sunspecModel, sunspecVersion, sunspecSerial.
  rewrite !stringDecode_returns by lia. reflexivity.
Qed.

(** Below 135 bytes of backing array a buffer that passes both guards makes
    the decoder panic. *)
Lemma Decode_panics (b : bytes) :
  sunspecSerial + 2 * 16 <= len b -> has_signature b -> cap b < 135 ->
  DecodeSunSpecCommonBlock b = Panics.
Proof.
  intros Hlen Hsig Hcap. rewrite Decode_fields by assumption.
  rewrite (stringDecode_panics b sunspecSerial 16) by (unfold sunspecSerial; lia).
  destruct (stringDecode b sunspecManufacturer 16); [|reflexivity].
  destruct (stringDecode b sunspecModel 16); [|reflexivity].
  destruct (stringDecode b sunspecVersion 8); reflexivity.
Qed.

(** *** Trimming a field that ends in padding *)

Lemma string_of_list_byte_snoc (l : list byte) (c : byte) :
  string_of_list_byte (l ++ [c]) =
  (string_of_list_byte l ++ String (ascii_of_byte c) EmptyString)%string.
Proof.
  unfold string_of_list_byte. induction l as [|a l IH]; [reflexivity|].
  cbn [app map string_of_list_ascii String.append]. rewrite IH. reflexivity.
Qed.

Lemma TrimRight_snoc (s cutset : string) (c : ascii) :
  strings.contains_char cutset c = true ->
  strings.TrimRight (s ++ String c EmptyString)%string cutset = strings.TrimRight s cutset.
Proof.
  intros Hc. induction s as [|a s IH].
  - cbn. rewrite Hc. reflexivity.
  - cbn [String.append strings.TrimRight]. rewrite IH. reflexivity.
Qed.

Lemma padding_in_cutset (c : byte) :
  is_padding c = true -> strings.contains_char space_and_null (ascii_of_byte c) = true.
Proof.
  unfold is_padding. intros H. apply orb_prop in H as [H|H];
    apply Byte.byte_dec_bl in H; subst c; reflexivity.
Qed.

Lemma trim_snoc_padding (l : list byte) (c : byte) :
  is_padding c = true -> trim (l ++ [c]) = trim l.
Proof.
  intros Hc. unfold trim. rewrite string_of_list_byte_snoc.
  apply TrimRight_snoc, padding_in_cutset, Hc.
Qed.

(** When the last byte of a field is padding, the bytes [stringDecode]
    converts trim to the same string as the whole field. *)
Lemma trim_decoded_bytes (b : bytes) (reg len : Z) :
  1 <= reg -> 1 <= len -> 2 * (reg + len - 1) <= cap b ->
  is_padding (last (field_bytes b reg len) x00) = true ->
  trim (decoded_bytes b reg len) = trim (field_bytes b reg len).
Proof.
  intros Hreg Hlen Hcap. unfold field_bytes, decoded_bytes.
  set (tail := skipn (Z.to_nat (2 * (reg - 1))) (backing b)).
  assert (Htail : (Z.to_nat (2 * len - 1) < length tail)%nat).
  { subst tail. rewrite length_skipn. unfold cap in Hcap. lia. }
  replace (Z.to_nat (2 * len)) with (S (Z.to_nat (2 * len - 1))) by lia.
  set (n := Z.to_nat (2 * len - 1)) in *.
  intros Hpad.
  assert (Hne : firstn (S n) tail <> []).
  { destruct tail; [cbn in Htail; lia | discriminate]. }
  rewrite (app_removelast_last x00 Hne) at 1.
  rewrite removelast_firstn by exact Htail.
  symmetry. apply trim_snoc_padding. exact Hpad.
Qed.

(** C1: a buffer of exactly the documented minimum, 85 bytes beginning with
    "SunS", passes the length guard and the signature test, and the decoder
    then panics: already the version field, sliced as [b[88:103]], lies
    beyond the buffer.  The minimum length does not cover the fields. *)
Theorem Decode_min_length_block_panics :
  len min_length_block = sunspecSerial + 2 * 16 /\
  cap min_length_block = len min_length_block /\
  has_signature min_length_block /\
  stringDecode min_length_block sunspecVersion 8 = Panics /\
  stringDecode min_length_block sunspecSerial 16 = Panics /\
  DecodeSunSpecCommonBlock min_length_block = Panics.
Proof.
  assert (Hlen : len min_length_block = 85) by reflexivity.
  assert (Hcap : cap min_length_block = 85) by reflexivity.
  assert (Hsig : has_signature min_length_block) by reflexivity.
  split; [exact Hlen|]. split; [congruence|]. split; [exact Hsig|].
  split; [|split].
  - unfold sunspecVersion. apply stringDecode_panics; rewrite ?Hcap; lia.
  - unfold sunspecSerial. apply stringDecode_panics; rewrite ?Hcap; lia.
  - apply Decode_panics; [rewrite Hlen; unfold sunspecSerial; lia | exact Hsig | lia].
Qed.

(** C2: in a complete 136-byte block whose manufacturer field holds 32
    characters, the decoder returns only the first 31 of them: every field is
    converted without its last byte. *)
Theorem Decode_full_width_field_loses_last_byte :
  len full_width_block = 136 /\
  has_signature full_width_block /\
  field_bytes full_width_block sunspecManufacturer 16 =
    list_byte_of_string full_width_manufacturer /\
  DecodeSunSpecCommonBlock full_width_block =
    Returns (mkDescriptor "ABCDEFGHIJKLMNOPQRSTUVWXYZ01234" "PV-5000" "1.2.3" "SN0042",
             None) /\
  trim (field_bytes full_width_block sunspecManufacturer 16) = full_width_manufacturer /\
  trim (decoded_bytes full_width_block sunspecManufacturer 16) <> full_width_manufacturer.
Proof.
  assert (Hlen : len full_width_block = 136) by reflexivity.
  assert (Hsig : has_signature full_width_block) by reflexivity.
  split; [exact Hlen|]. split; [exact Hsig|]. split; [reflexivity|]. split.
  - rewrite Decode_returns; [reflexivity | rewrite Hlen; unfold sunspecSerial; lia
                            | exact Hsig | pose proof (len_le_cap full_width_block); lia].
  - split; [reflexivity|]. vm_compute. discriminate.
Qed.

(** C5: a 120-byte buffer beginning with "SunS" meets neither failure
    condition (it is long enough for the guard and its signature is valid),
    yet the decoder returns nothing, neither an error nor a descriptor: the
    serial field, sliced as [b[104:135]], makes it panic. *)
Theorem Decode_third_outcome :
  sunspecSerial + 2 * 16 <= len short_serial_block /\
  has_signature short_serial_block /\
  (exists manufacturer model version,
      stringDecode short_serial_block sunspecManufacturer 16 = Returns manufacturer /\
      stringDecode short_serial_block sunspecModel 16 = Returns model /\
      stringDecode short_serial_block sunspecVersion 8 = Returns version) /\
  stringDecode short_serial_block sunspecSerial 16 = Panics /\
  (forall d e, DecodeSunSpecCommonBlock short_serial_block <> Returns (d, e)).
Proof.
  assert (Hlen : len short_serial_block = 120) by reflexivity.
  assert (Hcap : cap short_serial_block = 120) by reflexivity.
  assert (Hsig : has_signature short_serial_block) by reflexivity.
  split; [rewrite Hlen; unfold sunspecSerial; lia|]. split; [exact Hsig|]. split.
  - do 3 eexists. unfold sunspecManufacturer, sunspecModel, sunspecVersion.
    rewrite !stringDecode_returns by (rewrite ?Hcap; lia). repeat split.
  - split.
    + unfold sunspecSerial. apply stringDecode_panics; rewrite ?Hcap; lia.
    + intros d e. rewrite Decode_panics; [discriminate | | exact Hsig | lia].
      rewrite Hlen. unfold sunspecSerial. lia.
Qed.

Section CommonBlockOperation.

Variable Measurement : Type.
Variable ReadHoldingReg : Z.
Variable NoMeasurement : Measurement.

(** C9, as the code has it: the operation built by [GetSunSpecCommonBlock]
    asks for 53 registers, a 106-byte response.  A buffer of that length
    passes the length guard of the decoder, so the buffer-too-short error is
    not returned.  When its backing array is shorter than 135 bytes, as it
    is for a buffer without spare capacity, and the signature is valid, the
    first three fields are extracted and the serial field, sliced as
    [b[104:135]], is out of range, so the decoder panics, and in no case
    does it return a descriptor without an error.  When the backing array
    has 135 bytes or more, the slice reaches into the spare capacity and the
    decoder returns a descriptor. *)
Theorem Decode_requested_block_faults (b : bytes) :
  len b = 2 * Operation.ReadLen (GetSunSpecCommonBlock ReadHoldingReg NoMeasurement) ->
  Operation.ReadLen (GetSunSpecCommonBlock ReadHoldingReg NoMeasurement) = 53 /\
  len b = 106 /\
  sunspecSerial + 2 * 16 <= len b /\
  DecodeSunSpecCommonBlock b <> Returns (zero_descriptor, Some err_too_short) /\
  (cap b < 135 -> has_signature b ->
     (exists manufacturer model version,
         stringDecode b sunspecManufacturer 16 = Returns manufacturer /\
         stringDecode b sunspecModel 16 = Returns model /\
         stringDecode b sunspecVersion 8 = Returns version) /\
     stringDecode b sunspecSerial 16 = Panics /\
     DecodeSunSpecCommonBlock b = Panics) /\
  (cap b < 135 -> forall d, DecodeSunSpecCommonBlock b <> Returns (d, None)) /\
  (135 <= cap b -> has_signature b ->
     exists d, DecodeSunSpecCommonBlock b = Returns (d, None)).
Proof.
  cbn [GetSunSpecCommonBlock Operation.ReadLen]. unfold sunspecSerial at 1 2.
  intros Hlen. pose proof (len_le_cap b) as Hcap.
  assert (Hguard : sunspecSerial + 2 * 16 <= len b) by (unfold sunspecSerial; lia).
  assert (Hcases : has_signature b \/ ~ has_signature b).
  { unfold has_signature. destruct (list_eq_dec Byte.byte_eq_dec (firstn 4 (elems b)) suns); tauto. }
  split; [reflexivity|]. split; [lia|]. split; [exact Hguard|].
  split; [|split; [|split]].
  - destruct Hcases as [Hsig|Hsig].
    + destruct (Z_lt_le_dec (cap b) 135) as [Hsmall|Hbig].
      * rewrite Decode_panics by assumption. discriminate.
      * rewrite Decode_returns by assumption. discriminate.
    + rewrite Decode_invalid_signature by assumption. discriminate.
  - intros Hsmall Hsig. split; [|split].
    + do 3 eexists. unfold sunspecManufacturer, sunspecModel, sunspecVersion.
      rewrite !stringDecode_returns by lia. repeat split.
    + unfold sunspecSerial. apply stringDecode_panics; lia.
    + apply Decode_panics; assumption.
  - intros Hsmall d. destruct Hcases as [Hsig|Hsig].
    + rewrite Decode_panics by assumption. discriminate.
    + rewrite Decode_invalid_signature by assumption. discriminate.
  - intros Hbig Hsig. eexists. apply Decode_returns; assumption.
Qed.

End CommonBlockOperation.

Lemma Decode_requested_block_faults_witness :
  len requested_block = 2 * Operation.ReadLen (GetSunSpecCommonBlock 3 0) /\
  cap requested_block < 135 /\
  has_signature requested_block /\
  stringDecode requested_block sunspecSerial 16 = Panics /\
  DecodeSunSpecCommonBlock requested_block = Panics.
Proof.
  assert (Hlen : len requested_block = 2 * Operation.ReadLen (GetSunSpecCommonBlock 3 0))
    by reflexivity.
  assert (Hcap : cap requested_block < 135) by reflexivity.
  assert (Hsig : has_signature requested_block) by reflexivity.
  destruct (Decode_requested_block_faults Z 3 0 requested_block Hlen)
    as (_ & _ & _ & _ & Hfault & _).
  destruct (Hfault Hcap Hsig) as (_ & Hserial & Hpanic).
  repeat (split; [assumption|]). assumption.
Defined.

(** C9, as the claim words it, fails: a slice of the 106 bytes the operation
    asks for, cut from a backing array of 136 bytes, passes the length
    guard, carries the signature, and is decoded without a fault: the serial
    field is read from the spare capacity, and a descriptor is returned
    without an error.  Nor does a buffer of 106 bytes that lacks the
    signature make the decoder fault: the invalid-signature error is
    returned. *)
Lemma Decode_requested_block_counterexample :
  len roomy_requested_block = 2 * Operation.ReadLen (GetSunSpecCommonBlock 3 0) /\
  cap roomy_requested_block = 136 /\
  sunspecSerial + 2 * 16 <= len roomy_requested_block /\
  has_signature roomy_requested_block /\
  stringDecode roomy_requested_block sunspecSerial 16 = Returns "SN0042"%string /\
  DecodeSunSpecCommonBlock roomy_requested_block =
    Returns (mkDescriptor "Fronius" "PV-5000" "1.2.3" "SN0042", None) /\
  DecodeSunSpecCommonBlock roomy_requested_block <> Panics /\
  len unsigned_requested_block = 2 * Operation.ReadLen (GetSunSpecCommonBlock 3 0) /\
  cap unsigned_requested_block = len unsigned_requested_block /\
  DecodeSunSpecCommonBlock unsigned_requested_block =
    Returns (zero_descriptor, Some err_invalid_signature).
Proof.
  assert (Hunsigned : DecodeSunSpecCommonBlock unsigned_requested_block =
                      Returns (zero_descriptor, Some err_invalid_signature)).
  { apply Decode_invalid_signature; [vm_compute; discriminate|].
    unfold has_signature. vm_compute. discriminate. }
  assert (Hlen : len roomy_requested_block = 106) by reflexivity.
  assert (Hcap : cap roomy_requested_block = 136) by reflexivity.
  assert (Hsig : has_signature roomy_requested_block) by reflexivity.
  assert (Hdec : DecodeSunSpecCommonBlock roomy_requested_block =
                 Returns (mkDescriptor "Fronius" "PV-5000" "1.2.3" "SN0042", None)).
  { rewrite Decode_returns; [reflexivity | rewrite Hlen; unfold sunspecSerial; lia
                            | exact Hsig | lia]. }
  split; [reflexivity|]. split; [exact Hcap|].
  split; [rewrite Hlen; unfold sunspecSerial; lia|]. split; [exact Hsig|].
  split; [|split; [exact Hdec|]].
  - unfold sunspecSerial. rewrite stringDecode_returns by lia. reflexivity.
  - split; [rewrite Hdec; discriminate|].
    split; [reflexivity|]. split; [reflexivity | exact Hunsigned].
Qed.

(** ** The span of a block: [minMax], [scaleSnip16], [scaleSnip32] *)

Lemma uint16_small (z : Z) : 0 <= z < 65536 -> uint16 z = z.
Proof. intros Hz. unfold uint16. apply Z.mod_small. exact Hz. Qed.

Lemma uint16_range (z : Z) : 0 <= uint16 z < 65536.
Proof. unfold uint16. apply Z.mod_pos_bound. lia. Qed.

Lemma uint16_add_l (a c : Z) : uint16 (uint16 a + c) = uint16 (a + c).
Proof. unfold uint16. apply Zplus_mod_idemp_l. Qed.

Lemma uint16_sub_l (a c : Z) : uint16 (uint16 a - c) = uint16 (a - c).
Proof. unfold uint16. apply Zminus_mod_idemp_l. Qed.

Section BlockSpan.

Variable Measurement : Type.
Variable ReadHoldingReg : Z.
Variable Split : Measurement.
Variable p : SunSpecCore Measurement.

Lemma minMax_step_min_max (mn mx : Z) (i : Measurement) :
  minMax_step p (mn, mx) i = (Z.min mn (Opcode p i), Z.max mx (Opcode p i)).
Proof.
  unfold minMax_step. f_equal.
  - destruct (Z.ltb_spec (Opcode p i) mn); lia.
  - rewrite Z.gtb_ltb. destruct (Z.ltb_spec mx (Opcode p i)); lia.
Qed.

Lemma minMax_fold (iecs : list Measurement) :
  forall mn mx,
    fold_left (minMax_step p) iecs (mn, mx) =
    (fold_left Z.min (offsets p iecs) mn, fold_left Z.max (offsets p iecs) mx).
Proof.
  induction iecs as [|i iecs IH]; intros mn mx; [reflexivity|].
  cbn [fold_left offsets map]. rewrite minMax_step_min_max. apply IH.
Qed.

Lemma fold_min_bounds (l : list Z) :
  forall acc,
    fold_left Z.min l acc <= acc /\
    Forall (fun o => fold_left Z.min l acc <= o) l /\
    (fold_left Z.min l acc = acc \/ In (fold_left Z.min l acc) l).
Proof.
  induction l as [|o l IH]; intros acc; cbn [fold_left].
  - repeat split; [lia | constructor | left; reflexivity].
  - destruct (IH (Z.min acc o)) as (Hle & Hall & Hin). repeat split.
    + lia.
    + constructor; [lia | exact Hall].
    + destruct Hin as [Heq|Hin]; [|right; right; exact Hin].
      rewrite Heq. destruct (Z.min_spec acc o) as [[_ ->]|[_ ->]];
        [left; reflexivity | right; left; reflexivity].
Qed.

Lemma fold_max_bounds (l : list Z) :
  forall acc,
    acc <= fold_left Z.max l acc /\
    Forall (fun o => o <= fold_left Z.max l acc) l /\
    (fold_left Z.max l acc = acc \/ In (fold_left Z.max l acc) l).
Proof.
  induction l as [|o l IH]; intros acc; cbn [fold_left].
  - repeat split; [lia | constructor | left; reflexivity].
  - destruct (IH (Z.max acc o)) as (Hle & Hall & Hin). repeat split.
    + lia.
    + constructor; [lia | exact Hall].
    + destruct Hin as [Heq|Hin]; [|right; right; exact Hin].
      rewrite Heq. destruct (Z.max_spec acc o) as [[_ ->]|[_ ->]];
        [right; left; reflexivity | left; reflexivity].
Qed.

Lemma offsets_uint16 (iecs : list Measurement) :
  Opcode_uint16 p -> Forall (fun o => 0 <= o < 65536) (offsets p iecs).
Proof.
  intros Hp. unfold offsets. apply Forall_forall. intros o Ho.
  apply in_map_iff in Ho as (m & <- & _). apply Hp.
Qed.

(** On a list that is not empty [minMax] returns the least and the greatest
    resolved offset. *)
Lemma minMax_least_greatest (iecs : list Measurement) (mn mx : Z) :
  Opcode_uint16 p ->
  is_least (offsets p iecs) mn -> is_greatest (offsets p iecs) mx ->
  minMax p iecs = (mn, mx).
Proof.
  intros Hp [Hmn_in Hmn_le] [Hmx_in Hmx_ge].
  pose proof (offsets_uint16 iecs Hp) as Hrange.
  rewrite Forall_forall in Hmn_le, Hmx_ge, Hrange.
  unfold minMax. rewrite minMax_fold. f_equal.
  - destruct (fold_min_bounds (offsets p iecs) 0xFFFF) as (Hacc & Hall & Hin).
    rewrite Forall_forall in Hall.
    pose proof (Hall mn Hmn_in). pose proof (Hrange mn Hmn_in).
    destruct Hin as [Heq|Hin]; [lia|].
    pose proof (Hmn_le _ Hin). lia.
  - destruct (fold_max_bounds (offsets p iecs) 0x0000) as (Hacc & Hall & Hin).
    rewrite Forall_forall in Hall.
    pose proof (Hall mx Hmx_in). pose proof (Hrange mx Hmx_in).
    destruct Hin as [Heq|Hin]; [lia|].
    pose proof (Hmx_ge _ Hin). lia.
Qed.

Lemma least_le_greatest (l : list Z) (mn mx : Z) :
  is_least l mn -> is_greatest l mx -> mn <= mx.
Proof.
  intros [Hin _] [_ Hge]. rewrite Forall_forall in Hge. apply Hge. exact Hin.
Qed.

(** C4, as the code has it: for measurements whose resolved offsets have the
    least element [mn] and the greatest [mx] (so the list is not empty),
    [scaleSnip16] builds an operation with [ReadLen = (mx - mn) + 2] and
    address [40000 + mn - 1], and [scaleSnip32] one with
    [ReadLen = ((mx - mn) + 1) * 2 + 1], all three as [uint16] values, that
    is modulo 2^16; the equations hold over the integers when
    [mx - mn <= 65533], [mn <= 25536] and [mx - mn <= 32766] respectively. *)
Theorem scaleSnip_block_span
  (splitter : list Measurement -> Splitter Measurement)
  (iecs : list Measurement) (mn mx : Z) :
  Opcode_uint16 p ->
  is_least (offsets p iecs) mn -> is_greatest (offsets p iecs) mx ->
  let op16 := scaleSnip16 ReadHoldingReg Split p splitter iecs in
  let op32 := scaleSnip32 ReadHoldingReg Split p splitter iecs in
  (Operation.ReadLen op16 = uint16 ((mx - mn) + 2) /\
   Operation.OpCode op16 = uint16 (40000 + mn - 1) /\
   Operation.OpCode op32 = Operation.OpCode op16 /\
   Operation.ReadLen op32 = uint16 (((mx - mn) + 1) * 2 + 1)) /\
  (mx - mn <= 65533 -> Operation.ReadLen op16 = (mx - mn) + 2) /\
  (mn <= 25536 -> Operation.OpCode op16 = 40000 + mn - 1) /\
  (mx - mn <= 32766 -> Operation.ReadLen op32 = ((mx - mn) + 1) * 2 + 1).
Proof.
  intros Hp Hmn Hmx op16 op32.
  pose proof (least_le_greatest _ _ _ Hmn Hmx) as Hle.
  assert (Hmn_range : 0 <= mn < 65536).
  { destruct Hmn as [Hin _]. pose proof (offsets_uint16 iecs Hp) as Hr.
    rewrite Forall_forall in Hr. apply Hr. exact Hin. }
  assert (Hmx_range : 0 <= mx < 65536).
  { destruct Hmx as [Hin _]. pose proof (offsets_uint16 iecs Hp) as Hr.
    rewrite Forall_forall in Hr. apply Hr. exact Hin. }
  assert (H16 : Operation.ReadLen op16 = uint16 ((mx - mn) + 2)).
  { subst op16. unfold scaleSnip16.
    rewrite (minMax_least_greatest iecs mn mx Hp Hmn Hmx).
    cbn [Operation.ReadLen]. apply uint16_add_l. }
  assert (Haddr : Operation.OpCode op16 = uint16 (40000 + mn - 1)).
  { subst op16. unfold scaleSnip16.
    rewrite (minMax_least_greatest iecs mn mx Hp Hmn Hmx).
    cbn [Operation.OpCode]. unfold sunspecBase. apply uint16_sub_l. }
  assert (H32 : Operation.ReadLen op32 = uint16 (((mx - mn) + 1) * 2 + 1)).
  { subst op32. unfold scaleSnip32. cbn [Operation.ReadLen].
    fold op16. rewrite H16. unfold uint16.
    Z.to_euclidean_division_equations. lia. }
  split; [repeat split; assumption|].
  split; [|split].
  - intros Hspan. rewrite H16. apply uint16_small. lia.
  - intros Hlow. rewrite Haddr. apply uint16_small. lia.
  - intros Hspan. rewrite H32. apply uint16_small. lia.
Qed.

(** C10: for an empty list [minMax] returns its initial values, 0xFFFF and
    0; [scaleSnip16] performs no check and builds an operation whose
    [ReadLen] is [0 - 0xFFFF + 2] wrapped to 3 and whose address is
    [40000 + 0xFFFF - 1] modulo 2^16. *)
Theorem scaleSnip16_empty_list
  (splitter : list Measurement -> Splitter Measurement) :
  minMax p [] = (0xFFFF, 0) /\
  scaleSnip16 ReadHoldingReg Split p splitter [] =
    Operation.mk ReadHoldingReg 39998 3 Split None (Some (splitter [])) /\
  Operation.ReadLen (scaleSnip16 ReadHoldingReg Split p splitter [])
    = (0 - 0xFFFF + 2) mod 2 ^ 16 /\
  Operation.OpCode (scaleSnip16 ReadHoldingReg Split p splitter [])
    = (40000 + 0xFFFF - 1) mod 2 ^ 16.
Proof.
  assert (Hmm : minMax p [] = (0xFFFF, 0)) by reflexivity.
  split; [exact Hmm|].
  unfold scaleSnip16. rewrite Hmm. cbn [Operation.ReadLen Operation.OpCode].
  repeat split.
Qed.

End BlockSpan.

Lemma scaleSnip_block_span_witness :
  Operation.ReadLen (scaleSnip16 3 0 example_core (mkSplitUint16 example_core) [10; 12]) = 4 /\
  Operation.OpCode (scaleSnip16 3 0 example_core (mkSplitUint16 example_core) [10; 12]) = 40009 /\
  Operation.ReadLen (scaleSnip32 3 0 example_core (mkSplitUint16 example_core) [10; 12]) = 7.
Proof.
  assert (Hp : Opcode_uint16 example_core).
  { intros m. unfold example_core. cbn [Opcode]. destruct (m =? 10); lia. }
  assert (Hmn : is_least (offsets example_core [10; 12]) 10).
  { split; [left; reflexivity|]. repeat constructor; cbn; lia. }
  assert (Hmx : is_greatest (offsets example_core [10; 12]) 12).
  { split; [right; left; reflexivity|]. repeat constructor; cbn; lia. }
  destruct (scaleSnip_block_span Z 3 0 example_core (mkSplitUint16 example_core)
              [10; 12] 10 12 Hp Hmn Hmx) as (_ & H16 & Haddr & H32).
  split; [apply H16; lia|]. split; [apply Haddr; lia | apply H32; lia].
Defined.

(** C4, as the claim words it, fails: with the offsets 1 and 65535 the claim
    wants 65536 registers for the 16-bit block and 131071 for the 32-bit
    block, the operations hold 0 and 65535; with the single offset 65535 the
    claim wants the address 105534, the operation holds 39998. *)
Lemma scaleSnip_block_span_counterexample :
  Opcode_uint16 wide_core /\
  is_least (offsets wide_core [false; true]) 1 /\
  is_greatest (offsets wide_core [false; true]) 65535 /\
  Operation.ReadLen (scaleSnip16 3 false wide_core (mkSplitUint16 wide_core) [false; true])
    <> (65535 - 1) + 2 /\
  Operation.ReadLen (scaleSnip32 3 false wide_core (mkSplitUint16 wide_core) [false; true])
    <> ((65535 - 1) + 1) * 2 + 1 /\
  is_least (offsets wide_core [true]) 65535 /\
  Operation.OpCode (scaleSnip16 3 false wide_core (mkSplitUint16 wide_core) [true])
    <> 40000 + 65535 - 1.
Proof.
  split.
  { intros m. destruct m; cbn; lia. }
  split.
  { split; [left; reflexivity|]. repeat constructor; cbn; lia. }
  split.
  { split; [right; left; reflexivity|]. repeat constructor; cbn; lia. }
  split; [vm_compute; discriminate|].
  split; [vm_compute; discriminate|].
  split.
  { split; [left; reflexivity|]. repeat constructor; cbn; lia. }
  vm_compute; discriminate.
Qed.

(** ** The block splitter *)

Lemma forallb_false_witness {A : Type} (f : A -> bool) (l : list A) :
  forallb f l = false -> exists x, In x l /\ f x = false.
Proof.
  induction l as [|a l IH]; cbn [forallb]; [discriminate|].
  destruct (f a) eqn:Ha; cbn [andb].
  - intros H. destruct (IH H) as (x & Hin & Hx). exists x. split; [right|]; assumption.
  - intros _. exists a. split; [left; reflexivity | exact Ha].
Qed.

Lemma raw_bytes_missing (b : bytes) (i : Z) :
  0 <= i -> raw_bytes b i = None -> len b < i + 2.
Proof.
  intros Hi. unfold raw_bytes, len.
  pose proof (length_skipn (Z.to_nat i) (elems b)) as Hlen.
  destruct (skipn (Z.to_nat i) (elems b)) as [|b0 [|b1 rest]]; cbn [length] in Hlen;
    [lia | lia | discriminate].
Qed.

(** Reading the exponent: the last two bytes of the block. *)
Lemma exponent_read (b : bytes) :
  (last <- slice_from b (len b - 2) ;; binary.BigEndian_Uint16 last) =
  if 2 <=? len b then Returns (last_uint16 b) else Panics.
Proof.
  unfold slice_from, last_uint16, len.
  destruct (Z.leb_spec 2 (Z.of_nat (length (elems b)))) as [Hlen|Hlen].
  - rewrite (proj2 (Z.leb_le 0 _)), (proj2 (Z.leb_le _ _)) by lia.
    cbn [andb bind].
    replace (Z.to_nat (Z.of_nat (length (elems b)) - 2)) with (length (elems b) - 2)%nat by lia.
    pose proof (length_skipn (length (elems b) - 2) (elems b)) as Hs.
    destruct (skipn (length (elems b) - 2) (elems b)) as [|b0 [|b1 rest]];
      cbn [length] in Hs; [lia | lia |].
    apply BigEndian_Uint16_value.
  - rewrite (proj2 (Z.leb_gt 0 _)) by lia. reflexivity.
Qed.

Lemma slice_from_same_elems (b1 b2 : bytes) (i : Z) :
  elems b1 = elems b2 ->
  match slice_from b1 i, slice_from b2 i with
  | Returns c1, Returns c2 => elems c1 = elems c2
  | Panics, Panics => True
  | _, _ => False
  end.
Proof.
  intros He. unfold slice_from, len. rewrite He.
  destruct ((0 <=? i) && (i <=? Z.of_nat (length (elems b2)))); [reflexivity | exact I].
Qed.

Lemma RTUUint16ToFloat64WithNaN_reads_elems_only :
  reads_elems_only RTUUint16ToFloat64WithNaN.
Proof.
  intros s1 s2 He. unfold RTUUint16ToFloat64WithNaN, binary.BigEndian_Uint16.
  rewrite He. reflexivity.
Qed.

Section Splitting.

Variable Measurement : Type.
Variable p : SunSpecCore Measurement.

Variable dataSize : Z.
Variable valFunc : bytes -> outcome float64.

(** One turn of the loop, in terms of the reading it takes. *)
Lemma split_loop_cons (mn : Z) (scaler : float64) (b : bytes)
  (iec : Measurement) (rest : list Measurement) (res : list (SplitResult.t Measurement)) :
  split_loop p dataSize valFunc mn scaler b (iec :: rest) res =
  (val <- reading p dataSize valFunc mn b iec ;;
   if math.IsNaN val
   then split_loop p dataSize valFunc mn scaler b rest res
   else split_loop p dataSize valFunc mn scaler b rest
          (res ++ [SplitResult.mk (uint16 (uint16 (sunspecBase + Opcode p iec) - 1))
                                  iec (PrimFloat.mul scaler val)])).
Proof.
  cbn [split_loop]. unfold reading.
  destruct (slice_from b _); reflexivity.
Qed.

(** The loop as a whole: it panics when some reading does, and otherwise
    appends what each measurement emits, in the order of the list. *)
Lemma split_loop_eq (mn : Z) (scaler : float64) (b : bytes) (iecs : list Measurement) :
  forall res,
    split_loop p dataSize valFunc mn scaler b iecs res =
    if forallb (fun m => is_returns (reading p dataSize valFunc mn b m)) iecs
    then Returns (res ++ flat_map (emitted p dataSize valFunc mn scaler b) iecs)
    else Panics.
Proof.
  induction iecs as [|iec rest IH]; intros res.
  - cbn. rewrite app_nil_r. reflexivity.
  - rewrite split_loop_cons. cbn [forallb flat_map]. unfold emitted at 1.
    destruct (reading p dataSize valFunc mn b iec) as [val|]; cbn [bind is_returns andb];
      [|reflexivity].
    destruct (math.IsNaN val); rewrite IH;
      destruct (forallb _ rest); try reflexivity.
    rewrite <- app_assoc. reflexivity.
Qed.

Lemma mkBlockSplitter_eq (iecs : list Measurement) (b : bytes) :
  mkBlockSplitter p dataSize valFunc iecs b =
  if 2 <=? len b
  then split_loop p dataSize valFunc (fst (minMax p iecs))
         (math.Pow10 (int16 (last_uint16 b))) b iecs []
  else Panics.
Proof.
  unfold mkBlockSplitter. destruct (minMax p iecs) as [mn mx]. cbn [fst].
  pose proof (exponent_read b) as He.
  destruct (slice_from b (len b - 2)) as [last|]; cbn [bind] in He |- *.
  - rewrite He. destruct (2 <=? len b); reflexivity.
  - destruct (2 <=? len b); [discriminate He | reflexivity].
Qed.

(** The measurements of the emitted results are the kept ones, in order. *)
Lemma emitted_measurements (mn : Z) (scaler : float64) (b : bytes)
  (iecs : list Measurement) :
  map SplitResult.IEC61850 (flat_map (emitted p dataSize valFunc mn scaler b) iecs) =
  filter (kept p dataSize valFunc mn b) iecs.
Proof.
  induction iecs as [|iec rest IH]; [reflexivity|].
  cbn [flat_map filter]. rewrite map_app, IH. unfold emitted, kept.
  destruct (reading p dataSize valFunc mn b iec) as [val|]; [|reflexivity].
  destruct (math.IsNaN val); reflexivity.
Qed.

End Splitting.

Section SplitUint16.

Variable Measurement : Type.
Variable p : SunSpecCore Measurement.

(** What the sentinel-aware decoder reads for a measurement: the two raw
    bytes at its byte index, when the block has them. *)
Lemma reading_RTUUint16 (mn : Z) (b : bytes) (iec : Measurement) :
  reading p 2 RTUUint16ToFloat64WithNaN mn b iec =
  match raw_bytes b (block_index 2 mn (Opcode p iec)) with
  | Some (b0, b1) =>
      Returns (if be16 b0 b1 =? 0xffff then math.NaN else float64_of_uint (be16 b0 b1))
  | None => Panics
  end.
Proof.
  unfold reading, raw_bytes.
  change (uint16 (2 * uint16 (Opcode p iec - mn))) with (block_index 2 mn (Opcode p iec)).
  set (i := block_index 2 mn (Opcode p iec)).
  assert (Hi : 0 <= i) by (subst i; unfold block_index; apply uint16_range).
  unfold slice_from. rewrite (proj2 (Z.leb_le 0 i) Hi). cbn [andb].
  destruct (Z.leb_spec i (len b)) as [Hle|Hgt]; cbn [bind].
  - destruct (skipn (Z.to_nat i) (elems b)) as [|b0 [|b1 rest]]; try reflexivity.
    apply RTUUint16ToFloat64WithNaN_value.
  - rewrite skipn_all2 by (unfold len in Hgt; lia). reflexivity.
Qed.

Lemma sentinel_value (b0 b1 : byte) :
  math.IsNaN (if be16 b0 b1 =? 0xffff then math.NaN else float64_of_uint (be16 b0 b1)) =
  Byte.eqb b0 xff && Byte.eqb b1 xff.
Proof.
  destruct (be16 b0 b1 =? 0xffff) eqn:Hs.
  - apply Z.eqb_eq, be16_sentinel in Hs. destruct Hs as [-> ->]. reflexivity.
  - rewrite (float64_of_uint16_not_NaN _ (be16_range b0 b1)).
    apply Z.eqb_neq in Hs. symmetry. apply not_true_is_false. intros Hff.
    apply andb_prop in Hff as [H0 H1].
    apply Byte.byte_dec_bl in H0, H1. apply Hs, be16_sentinel. split; assumption.
Qed.

(** A measurement is kept exactly when its reading does not panic and its
    raw bytes are not the sentinel. *)
Lemma kept_RTUUint16 (mn : Z) (b : bytes) (iec : Measurement) :
  kept p 2 RTUUint16ToFloat64WithNaN mn b iec =
  is_returns (reading p 2 RTUUint16ToFloat64WithNaN mn b iec) &&
  negb (sentinel_at b (block_index 2 mn (Opcode p iec))).
Proof.
  unfold kept, sentinel_at. rewrite reading_RTUUint16.
  destruct (raw_bytes b _) as [[b0 b1]|]; [|reflexivity].
  cbn [is_returns andb]. rewrite sentinel_value. reflexivity.
Qed.

(** C6: on every block, the splitter built by [mkSplitUint16] either panics,
    the block being shorter than two bytes or than the two bytes of some
    measurement, or returns results whose measurements are, in order, the
    measurements of the list whose raw bytes are not 0xFF 0xFF: a
    measurement with the sentinel at its index reads not-a-number and no
    result carries it, and there are at most as many results as
    measurements. *)
Theorem mkSplitUint16_skips_sentinels (iecs : list Measurement) (b : bytes) :
  let index m := block_index 2 (fst (minMax p iecs)) (Opcode p m) in
  match mkSplitUint16 p iecs b with
  | Returns res =>
      map SplitResult.IEC61850 res = filter (fun m => negb (sentinel_at b (index m))) iecs /\
      (forall m, In m iecs -> raw_bytes b (index m) = Some (xff, xff) ->
         reading p 2 RTUUint16ToFloat64WithNaN (fst (minMax p iecs)) b m = Returns math.NaN /\
         ~ In m (map SplitResult.IEC61850 res)) /\
      (length res <= length iecs)%nat
  | Panics => len b < 2 \/ exists m, In m iecs /\ len b < index m + 2
  end.
Proof.
  intros index. unfold mkSplitUint16. rewrite mkBlockSplitter_eq.
  destruct (Z.leb_spec 2 (len b)) as [Hlen|Hlen]; [|left; exact Hlen].
  rewrite split_loop_eq. set (mn := fst (minMax p iecs)) in *.
  destruct (forallb _ iecs) eqn:Hall.
  - cbn [app]. rewrite forallb_forall in Hall.
    assert (Hmeas : map SplitResult.IEC61850
              (flat_map (emitted p 2 RTUUint16ToFloat64WithNaN mn
                           (math.Pow10 (int16 (last_uint16 b))) b) iecs) =
            filter (fun m => negb (sentinel_at b (index m))) iecs).
    { rewrite emitted_measurements. apply filter_ext_in. intros m Hm.
      rewrite kept_RTUUint16, (Hall m Hm). reflexivity. }
    split; [exact Hmeas|]. split.
    + intros m Hm Hraw. split.
      * rewrite reading_RTUUint16. fold (index m). rewrite Hraw. reflexivity.
      * rewrite Hmeas. intros Hin. apply filter_In in Hin as [_ Hkeep].
        unfold sentinel_at in Hkeep. rewrite Hraw in Hkeep. discriminate.
    + rewrite <- (length_map SplitResult.IEC61850), Hmeas. apply filter_length_le.
  - right. apply forallb_false_witness in Hall as (m & Hm & Hpanic).
    exists m. split; [exact Hm|].
    rewrite reading_RTUUint16 in Hpanic. fold (index m) in Hpanic.
    apply raw_bytes_missing.
    + subst index. unfold block_index. apply uint16_range.
    + destruct (raw_bytes b (index m)) as [[b0 b1]|]; [discriminate | reflexivity].
Qed.

(** C3: measurements at the offsets 10 and 12, a block of four registers
    whose last one holds the exponent -1 (0xFF 0xFF), no raw value being
    0xFFFF: the least offset is 10, the raw values are read at the byte
    indexes 2*(10-10) = 0 and 2*(12-10) = 4, the exponent is taken from
    the last two bytes, the scaler is 10^-1 = 0.1, and the splitter returns
    exactly two results, the address 40000+10-1 with raw(10)*0.1 first, then
    the address 40000+12-1 with raw(12)*0.1. *)
Theorem mkSplitUint16_two_offsets (m10 m12 : Measurement)
  (h10 l10 h11 l11 h12 l12 : byte) (sp : list byte) :
  Opcode p m10 = 10 -> Opcode p m12 = 12 ->
  be16 h10 l10 <> 0xFFFF -> be16 h12 l12 <> 0xFFFF ->
  let b := mkBytes [h10; l10; h11; l11; h12; l12; xff; xff] sp in
  fst (minMax p [m10; m12]) = 10 /\
  raw_bytes b (2 * (10 - 10)) = Some (h10, l10) /\
  raw_bytes b (2 * (12 - 10)) = Some (h12, l12) /\
  int16 (last_uint16 b) = -1 /\
  math.Pow10 (-1) = 0.1%float /\
  mkSplitUint16 p [m10; m12] b =
    Returns [ SplitResult.mk (40000 + 10 - 1) m10
                (PrimFloat.mul (float64_of_uint (be16 h10 l10)) 0.1%float);
              SplitResult.mk (40000 + 12 - 1) m12
                (PrimFloat.mul (float64_of_uint (be16 h12 l12)) 0.1%float) ].
Proof.
  intros H10 H12 Hr10 Hr12 b.
  assert (Hmin : minMax p [m10; m12] = (10, 12)).
  { unfold minMax. cbn [fold_left]. unfold minMax_step. rewrite H10, H12. reflexivity. }
  assert (Hexp : last_uint16 b = 0xFFFF) by reflexivity.
  assert (Hread10 : reading p 2 RTUUint16ToFloat64WithNaN 10 b m10 =
                    Returns (float64_of_uint (be16 h10 l10))).
  { rewrite reading_RTUUint16, H10.
    change (raw_bytes b (block_index 2 10 10)) with (Some (h10, l10)).
    cbn iota. rewrite (proj2 (Z.eqb_neq _ _) Hr10). reflexivity. }
  assert (Hread12 : reading p 2 RTUUint16ToFloat64WithNaN 10 b m12 =
                    Returns (float64_of_uint (be16 h12 l12))).
  { rewrite reading_RTUUint16, H12.
    change (raw_bytes b (block_index 2 10 12)) with (Some (h12, l12)).
    cbn iota. rewrite (proj2 (Z.eqb_neq _ _) Hr12). reflexivity. }
  split; [rewrite Hmin; reflexivity|].
  split; [reflexivity|]. split; [reflexivity|].
  split; [rewrite Hexp; reflexivity|].
  split; [exact Pow10_minus_one|].
  unfold mkSplitUint16. rewrite mkBlockSplitter_eq.
  change (2 <=? len b) with true. cbn iota.
  rewrite Hmin, Hexp. cbn [fst]. change (int16 0xFFFF) with (-1).
  rewrite split_loop_eq. cbn [forallb flat_map]. unfold emitted.
  rewrite Hread10, Hread12. cbn [is_returns andb].
  rewrite !float64_of_uint16_not_NaN by apply be16_range.
  cbn [app]. rewrite H10, H12.
  rewrite !scale_by_tenth_comm by apply be16_range.
  rewrite Pow10_minus_one. reflexivity.
Qed.

End SplitUint16.

Section Determinism.

Variable Measurement : Type.
Variables p p' : SunSpecCore Measurement.

Variable dataSize : Z.
Variable valFunc : bytes -> outcome float64.

Lemma minMax_same_offsets (iecs : list Measurement) :
  (forall m, In m iecs -> Opcode p m = Opcode p' m) ->
  minMax p iecs = minMax p' iecs.
Proof.
  unfold minMax. generalize (0xFFFF, 0x0000).
  induction iecs as [|iec rest IH]; intros acc Hsame; [reflexivity|].
  cbn [fold_left]. unfold minMax_step at 2 4.
  rewrite (Hsame iec) by (left; reflexivity).
  apply IH. intros m Hm. apply Hsame. right. exact Hm.
Qed.

Lemma reading_same_block (mn : Z) (b1 b2 : bytes) (iec : Measurement) :
  reads_elems_only valFunc -> elems b1 = elems b2 -> Opcode p iec = Opcode p' iec ->
  reading p dataSize valFunc mn b1 iec = reading p' dataSize valFunc mn b2 iec.
Proof.
  intros Hval Hel Hop. unfold reading. rewrite Hop.
  pose proof (slice_from_same_elems b1 b2
                (uint16 (dataSize * uint16 (Opcode p' iec - mn))) Hel) as Hs.
  destruct (slice_from b1 _) as [c1|], (slice_from b2 _) as [c2|]; cbn [bind];
    [apply Hval; exact Hs | contradiction | contradiction | reflexivity].
Qed.

Lemma split_loop_same_block (mn : Z) (scaler : float64) (b1 b2 : bytes)
  (iecs : list Measurement) :
  reads_elems_only valFunc -> elems b1 = elems b2 ->
  (forall m, In m iecs -> Opcode p m = Opcode p' m) ->
  forall res,
    split_loop p dataSize valFunc mn scaler b1 iecs res =
    split_loop p' dataSize valFunc mn scaler b2 iecs res.
Proof.
  intros Hval Hel. induction iecs as [|iec rest IH]; intros Hsame res; [reflexivity|].
  assert (Hop : Opcode p iec = Opcode p' iec) by (apply Hsame; left; reflexivity).
  assert (Hrest : forall m, In m rest -> Opcode p m = Opcode p' m)
    by (intros m Hm; apply Hsame; right; exact Hm).
  rewrite !split_loop_cons.
  rewrite (reading_same_block mn b1 b2 iec Hval Hel Hop), Hop.
  destruct (reading p' dataSize valFunc mn b2 iec) as [val|]; cbn [bind]; [|reflexivity].
  destruct (math.IsNaN val); apply IH; exact Hrest.
Qed.

(** C8: a splitter built by [mkBlockSplitter] is a function of the bytes of
    the block and of the offsets of its measurements: invoked on two blocks
    with the same bytes, under resolutions that agree on the measurements,
    it gives the same outcome, result for result; and the results it returns
    carry, in the order of the argument list, the measurements that were not
    skipped. *)
Theorem mkBlockSplitter_deterministic (iecs : list Measurement) (b1 b2 : bytes) :
  reads_elems_only valFunc ->
  (forall m, In m iecs -> Opcode p m = Opcode p' m) ->
  elems b1 = elems b2 ->
  mkBlockSplitter p dataSize valFunc iecs b1 = mkBlockSplitter p' dataSize valFunc iecs b2 /\
  forall res,
    mkBlockSplitter p dataSize valFunc iecs b1 = Returns res ->
    map SplitResult.IEC61850 res =
    filter (kept p dataSize valFunc (fst (minMax p iecs)) b1) iecs.
Proof.
  intros Hval Hsame Hel. split.
  - rewrite !mkBlockSplitter_eq.
    rewrite <- (minMax_same_offsets iecs Hsame).
    assert (Hlen : len b1 = len b2) by (unfold len; rewrite Hel; reflexivity).
    assert (Hexp : last_uint16 b1 = last_uint16 b2)
      by (unfold last_uint16; rewrite Hel; reflexivity).
    rewrite Hlen, Hexp. destruct (2 <=? len b2); [|reflexivity].
    apply split_loop_same_block; assumption.
  - intros res. rewrite mkBlockSplitter_eq.
    destruct (2 <=? len b1); [|discriminate].
    rewrite split_loop_eq. destruct (forallb _ iecs); [|discriminate].
    intros Hres. injection Hres as <-. cbn [app]. apply emitted_measurements.
Qed.

End Determinism.

(** ** The statements at concrete blocks *)

(** The block of the example: raw(10) = 10, raw(11) = 256, raw(12) = 1234,
    exponent -1. *)
Lemma mkSplitUint16_two_offsets_witness :
  Opcode example_core 10 = 10 /\ Opcode example_core 12 = 12 /\
  be16 x00 x0a <> 0xFFFF /\ be16 x04 xd2 <> 0xFFFF /\
  mkSplitUint16 example_core [10; 12]
    (mkBytes [x00; x0a; x01; x00; x04; xd2; xff; xff] []) =
  Returns [ SplitResult.mk 40009 10 (PrimFloat.mul (float64_of_uint 10) 0.1%float);
            SplitResult.mk 40011 12 (PrimFloat.mul (float64_of_uint 1234) 0.1%float) ].
Proof.
  assert (H10 : Opcode example_core 10 = 10) by reflexivity.
  assert (H12 : Opcode example_core 12 = 12) by reflexivity.
  assert (Hr10 : be16 x00 x0a <> 0xFFFF) by (vm_compute; discriminate).
  assert (Hr12 : be16 x04 xd2 <> 0xFFFF) by (vm_compute; discriminate).
  destruct (mkSplitUint16_two_offsets Z example_core 10 12 x00 x0a x01 x00 x04 xd2 []
              H10 H12 Hr10 Hr12) as (_ & _ & _ & _ & _ & Hsplit).
  repeat (split; [assumption|]). exact Hsplit.
Defined.

(** The same eight bytes in a slice without spare capacity and in one with
    two spare bytes. *)
Lemma mkBlockSplitter_deterministic_witness :
  mkBlockSplitter example_core 2 RTUUint16ToFloat64WithNaN [10; 12]
    (mkBytes [x00; x0a; xff; xff; x04; xd2; xff; xff] []) =
  mkBlockSplitter example_core 2 RTUUint16ToFloat64WithNaN [10; 12]
    (mkBytes [x00; x0a; xff; xff; x04; xd2; xff; xff] [x00; x00]).
Proof.
  apply (mkBlockSplitter_deterministic Z example_core example_core 2
           RTUUint16ToFloat64WithNaN [10; 12]
           (mkBytes [x00; x0a; xff; xff; x04; xd2; xff; xff] [])
           (mkBytes [x00; x0a; xff; xff; x04; xd2; xff; xff] [x00; x00])
           RTUUint16ToFloat64WithNaN_reads_elems_only
           (fun m _ => eq_refl) eq_refl).
Defined.

(** A block whose two values are both the sentinel yields no result, and a
    block with one sentinel yields the other measurement alone. *)
Example mkSplitUint16_all_sentinels :
  mkSplitUint16 example_core [10; 12]
    (mkBytes [xff; xff; x01; x00; xff; xff; x00; x00] []) = Returns [] /\
  mkSplitUint16 example_core [12; 10]
    (mkBytes [xff; xff; x01; x00; x04; xd2; x00; x00] []) =
  Returns [SplitResult.mk 40011 12 (PrimFloat.mul 1 (float64_of_uint 1234))].
Proof. split; vm_compute; reflexivity. Qed.

(** ** The decoder, case by case *)

(** The four outcomes of [DecodeSunSpecCommonBlock]: the buffer-too-short
    error below 85 bytes, whatever the content; the invalid-signature error
    when the first four bytes are not "SunS"; both with the zero descriptor;
    a panic when the backing array is shorter than 135 bytes; and otherwise
    the descriptor, each field trimmed from all but the last of its bytes. *)
Theorem DecodeSunSpecCommonBlock_outcomes (b : bytes) :
  (len b < 85 ->
   DecodeSunSpecCommonBlock b = Returns (zero_descriptor, Some err_too_short)) /\
  (85 <= len b -> ~ has_signature b ->
   DecodeSunSpecCommonBlock b = Returns (zero_descriptor, Some err_invalid_signature)) /\
  (85 <= len b -> has_signature b -> cap b < 135 ->
   DecodeSunSpecCommonBlock b = Panics) /\
  (85 <= len b -> has_signature b -> 135 <= cap b ->
   DecodeSunSpecCommonBlock b =
   Returns (mkDescriptor (trim (decoded_bytes b sunspecManufacturer 16))
                         (trim (decoded_bytes b sunspecModel 16))
                         (trim (decoded_bytes b sunspecVersion 8))
                         (trim (decoded_bytes b sunspecSerial 16)), None)).
Proof.
  change 85 with (sunspecSerial + 2 * 16).
  split; [apply Decode_too_short|].
  split; [apply Decode_invalid_signature|].
  split; [apply Decode_panics | apply Decode_returns].
Qed.

(** A complete block of 136 bytes or more, with the signature, whose four
    fields end in a padding byte, is decoded to the four fields with their
    trailing spaces and null bytes stripped. *)
Theorem Decode_padded_fields (b : bytes) :
  136 <= len b -> has_signature b ->
  is_padding (last (field_bytes b sunspecManufacturer 16) x00) = true ->
  is_padding (last (field_bytes b sunspecModel 16) x00) = true ->
  is_padding (last (field_bytes b sunspecVersion 8) x00) = true ->
  is_padding (last (field_bytes b sunspecSerial 16) x00) = true ->
  DecodeSunSpecCommonBlock b =
  Returns (mkDescriptor (trim (field_bytes b sunspecManufacturer 16))
                        (trim (field_bytes b sunspecModel 16))
                        (trim (field_bytes b sunspecVersion 8))
                        (trim (field_bytes b sunspecSerial 16)), None).
Proof.
  intros Hlen Hsig Hman Hmod Hver Hser.
  pose proof (len_le_cap b) as Hcap.
  rewrite Decode_returns by (unfold sunspecSerial; assumption || lia).
  unfold sunspecManufacturer, sunspecModel, sunspecVersion, sunspecSerial in *.
  rewrite !trim_decoded_bytes by (assumption || lia).
  reflexivity.
Qed.

Lemma Decode_padded_fields_witness :
  136 <= len padded_block /\ has_signature padded_block /\
  DecodeSunSpecCommonBlock padded_block =
  Returns (mkDescriptor "Fronius" "PV-5000" "1.2.3" "SN0042", None).
Proof.
  assert (Hlen : 136 <= len padded_block) by (vm_compute; discriminate).
  assert (Hsig : has_signature padded_block) by reflexivity.
  split; [exact Hlen|]. split; [exact Hsig|].
  exact (Decode_padded_fields padded_block Hlen Hsig eq_refl eq_refl eq_refl eq_refl).
Defined.

(** * Further properties of the code *)

(** ** [strings.TrimRight] *)

Lemma TrimRight_not_ends_in_cutset (s cutset : string) :
  ends_in_cutset (strings.TrimRight s cutset) cutset = false.
Proof.
  induction s as [|c rest IH]; [reflexivity|].
  cbn [strings.TrimRight].
  destruct (strings.TrimRight rest cutset) as [|d kept] eqn:Hrest.
  - destruct (strings.contains_char cutset c) eqn:Hc; [reflexivity|].
    cbn. exact Hc.
  - exact IH.
Qed.

Lemma TrimRight_decompose (s cutset : string) :
  exists suffix : string,
    s = (strings.TrimRight s cutset ++ suffix)%string /\
    only_cutset suffix cutset = true.
Proof.
  induction s as [|c rest IH].
  - exists EmptyString. split; reflexivity.
  - destruct IH as (suffix & Hrest & Hsuffix). cbn [strings.TrimRight].
    destruct (strings.TrimRight rest cutset) as [|d kept] eqn:Htrim.
    + cbn [String.append] in Hrest. subst rest.
      destruct (strings.contains_char cutset c) eqn:Hc.
      * exists (String c suffix). split; [reflexivity|].
        cbn [only_cutset]. rewrite Hc, Hsuffix. reflexivity.
      * exists suffix. split; [reflexivity | exact Hsuffix].
    + exists suffix. split; [|exact Hsuffix].
      cbn [String.append] in Hrest |- *. rewrite <- Hrest. reflexivity.
Qed.

Lemma TrimRight_fixed (s cutset : string) :
  ends_in_cutset s cutset = false -> strings.TrimRight s cutset = s.
Proof.
  induction s as [|c rest IH]; [reflexivity|].
  intros Hend. cbn [strings.TrimRight].
  destruct rest as [|d rest'].
  - cbn in Hend |- *. rewrite Hend. reflexivity.
  - rewrite IH by exact Hend. reflexivity.
Qed.

Lemma append_length (s t : string) :
  String.length (s ++ t)%string = (String.length s + String.length t)%nat.
Proof.
  induction s as [|c s IH]; [reflexivity|]. cbn. rewrite IH. reflexivity.
Qed.

Lemma string_of_list_byte_length (l : list byte) :
  String.length (string_of_list_byte l) = length l.
Proof.
  unfold string_of_list_byte. induction l as [|a l IH]; [reflexivity|].
  cbn. rewrite IH. reflexivity.
Qed.

Lemma list_byte_of_string_length (s : string) :
  length (list_byte_of_string s) = String.length s.
Proof.
  rewrite <- (string_of_list_byte_of_string s) at 2.
  symmetry. apply string_of_list_byte_length.
Qed.

(** ** [stringDecode] *)

Lemma stringDecode_bounds (b : bytes) (reg len : Z) (s : string) :
  - 2 ^ 60 <= reg <= 2 ^ 60 -> - 2 ^ 60 <= len <= 2 ^ 60 ->
  stringDecode b reg len = Returns s ->
  1 <= reg /\ 1 <= len /\ 2 * (reg + len - 1) - 1 <= cap b.
Proof.
  intros Hreg Hlen. rewrite stringDecode_no_wrap by assumption.
  unfold slice_range.
  destruct (Z.leb_spec 0 (2 * (reg - 1))) as [Hlo|Hlo];
    destruct (Z.leb_spec (2 * (reg - 1)) (2 * (reg + len - 1) - 1)) as [Hhi|Hhi];
    destruct (Z.leb_spec (2 * (reg + len - 1) - 1) (cap b)) as [Hcap|Hcap];
    cbn [andb bind]; intros H; try discriminate; lia.
Qed.

(** What [stringDecode] returns is the converted span without a suffix of
    spaces and null bytes: it does not end in a space or a null byte, and
    has at most [2*len - 1] characters. *)
Lemma stringDecode_shape (b : bytes) (reg len : Z) (s : string) :
  - 2 ^ 60 <= reg <= 2 ^ 60 -> - 2 ^ 60 <= len <= 2 ^ 60 ->
  stringDecode b reg len = Returns s ->
  (exists padding : string,
      string_of_list_byte (decoded_bytes b reg len) = (s ++ padding)%string /\
      only_cutset padding space_and_null = true) /\
  ends_in_cutset s space_and_null = false /\
  Z.of_nat (String.length s) <= 2 * len - 1.
Proof.
  intros Hreg Hlen Hret.
  pose proof (stringDecode_bounds b reg len s Hreg Hlen Hret) as Hok.
  rewrite stringDecode_returns in Hret by lia.
  injection Hret as <-. unfold trim.
  destruct (TrimRight_decompose (string_of_list_byte (decoded_bytes b reg len))
              space_and_null) as (padding & Hsplit & Hpad).
  split; [exists padding; split; assumption|].
  split; [apply TrimRight_not_ends_in_cutset|].
  apply (f_equal String.length) in Hsplit.
  rewrite append_length, string_of_list_byte_length in Hsplit.
  unfold decoded_bytes in *.
  pose proof (firstn_le_length (Z.to_nat (2 * len - 1))
                (skipn (Z.to_nat (2 * (reg - 1))) (backing b))) as Hfirst.
  lia.
Qed.

Lemma go_int_range (z : Z) : - 2 ^ 63 <= go_int z < 2 ^ 63.
Proof.
  unfold go_int. pose proof (Z.mod_pos_bound (z + 2 ^ 63) (2 ^ 64) ltac:(lia)). lia.
Qed.

Lemma go_int_congruent (z : Z) : exists k, go_int z = z + k * 2 ^ 64.
Proof.
  exists (- ((z + 2 ^ 63) / 2 ^ 64)). unfold go_int.
  pose proof (Z.div_mod (z + 2 ^ 63) (2 ^ 64) ltac:(lia)). lia.
Qed.

(** A field of length 0 makes [stringDecode] panic, for every register
    number, wrap-around included: the upper bound of the slice is one
    below the lower bound, or the lower bound is the least [int]. *)
Lemma stringDecode_empty_field (b : bytes) (reg : Z) :
  stringDecode b reg 0 = Panics.
Proof.
  unfold stringDecode.
  set (start := go_int (2 * go_int (reg - 1))).
  set (end_ := go_int (2 * go_int (go_int (reg + 0) - 1))).
  assert (Hsame : end_ = start).
  { subst start end_.
    destruct (go_int_congruent (reg - 1)) as (k1 & H1).
    destruct (go_int_congruent (reg + 0)) as (k2 & H2).
    destruct (go_int_congruent (go_int (reg + 0) - 1)) as (k3 & H3).
    destruct (go_int_congruent (2 * go_int (reg - 1))) as (k4 & H4).
    destruct (go_int_congruent (2 * go_int (go_int (reg + 0) - 1))) as (k5 & H5).
    pose proof (go_int_range (2 * go_int (reg - 1))).
    pose proof (go_int_range (2 * go_int (go_int (reg + 0) - 1))).
    lia. }
  rewrite Hsame. pose proof (go_int_range (2 * go_int (reg - 1))) as Hr. fold start in Hr.
  unfold slice_range.
  destruct (Z.leb_spec 0 start) as [Hpos|Hneg]; [|reflexivity].
  rewrite (go_int_small (start - 1)) by lia.
  rewrite (proj2 (Z.leb_gt start (start - 1))) by lia. reflexivity.
Qed.

(** As long as the [int] arithmetic does not wrap, for a register and a
    length of magnitude 2^60 at most, [stringDecode] panics exactly when the
    register is below 1, the length below 1, or the backing array ends
    before byte [2*(reg+len-1) - 1]; and a field of length 0 makes it panic
    for every register number and every buffer. *)
Theorem stringDecode_panics_iff (b : bytes) (reg len : Z) :
  (- 2 ^ 60 <= reg <= 2 ^ 60 -> - 2 ^ 60 <= len <= 2 ^ 60 ->
   (stringDecode b reg len = Panics <->
    reg < 1 \/ len < 1 \/ cap b < 2 * (reg + len - 1) - 1)) /\
  stringDecode b reg 0 = Panics.
Proof.
  split; [|apply stringDecode_empty_field].
  intros Hreg Hlen. split.
  - intros Hp. destruct (Z_lt_le_dec reg 1) as [|Hr]; [tauto|].
    destruct (Z_lt_le_dec len 1) as [|Hl]; [tauto|].
    destruct (Z_lt_le_dec (cap b) (2 * (reg + len - 1) - 1)) as [|Hcap]; [tauto|].
    rewrite stringDecode_returns in Hp by lia. discriminate.
  - intros Hbad. destruct (stringDecode b reg len) as [s|] eqn:Hs; [|reflexivity].
    apply stringDecode_bounds in Hs; [lia | assumption | assumption].
Qed.

(** ** The descriptor the decoder returns *)

Lemma signature_dec (b : bytes) : {has_signature b} + {~ has_signature b}.
Proof.
  unfold has_signature. apply (list_eq_dec Byte.byte_eq_dec).
Qed.

(** Whenever the decoder returns a descriptor without an error, none of the
    four strings ends in a space or a null byte, and manufacturer, model and
    serial have at most 31 characters, the version at most 15. *)
Theorem Decode_descriptor_trimmed (b : bytes) (d : SunSpecDeviceDescriptor) :
  DecodeSunSpecCommonBlock b = Returns (d, None) ->
  (ends_in_cutset (Manufacturer d) space_and_null = false /\
   ends_in_cutset (Model d) space_and_null = false /\
   ends_in_cutset (Version d) space_and_null = false /\
   ends_in_cutset (Serial d) space_and_null = false) /\
  (String.length (Manufacturer d) <= 31 /\ String.length (Model d) <= 31 /\
   String.length (Version d) <= 15 /\ String.length (Serial d) <= 31)%nat.
Proof.
  intros Hret.
  destruct (Z_lt_le_dec (len b) (sunspecSerial + 2 * 16)) as [Hshort|Hlen].
  { rewrite Decode_too_short in Hret by exact Hshort. discriminate. }
  destruct (signature_dec b) as [Hsig|Hsig].
  2:{ rewrite Decode_invalid_signature in Hret by assumption. discriminate. }
  rewrite Decode_fields in Hret by assumption.
  destruct (stringDecode b sunspecManufacturer 16) as [manufacturer|] eqn:H1;
    cbn [bind] in Hret; [|discriminate].
  destruct (stringDecode b sunspecModel 16) as [model|] eqn:H2;
    cbn [bind] in Hret; [|discriminate].
  destruct (stringDecode b sunspecVersion 8) as [version|] eqn:H3;
    cbn [bind] in Hret; [|discriminate].
  destruct (stringDecode b sunspecSerial 16) as [serial|] eqn:H4;
    cbn [bind] in Hret; [|discriminate].
  injection Hret as <-. cbn [Manufacturer Model Version Serial].
  unfold sunspecManufacturer, sunspecModel, sunspecVersion, sunspecSerial in *.
  apply stringDecode_shape in H1 as (_ & E1 & L1); [|lia|lia].
  apply stringDecode_shape in H2 as (_ & E2 & L2); [|lia|lia].
  apply stringDecode_shape in H3 as (_ & E3 & L3); [|lia|lia].
  apply stringDecode_shape in H4 as (_ & E4 & L4); [|lia|lia].
  repeat split; assumption || lia.
Qed.

Lemma Decode_descriptor_trimmed_witness :
  ends_in_cutset "Fronius" space_and_null = false /\
  (String.length "ABCDEFGHIJKLMNOPQRSTUVWXYZ01234" <= 31)%nat.
Proof.
  assert (H1 : DecodeSunSpecCommonBlock padded_block =
               Returns (mkDescriptor "Fronius" "PV-5000" "1.2.3" "SN0042", None))
    by reflexivity.
  assert (H2 : DecodeSunSpecCommonBlock full_width_block =
               Returns (mkDescriptor "ABCDEFGHIJKLMNOPQRSTUVWXYZ01234" "PV-5000" "1.2.3"
                                     "SN0042", None))
    by reflexivity.
  split.
  - exact (proj1 (proj1 (Decode_descriptor_trimmed _ _ H1))).
  - exact (proj1 (proj2 (Decode_descriptor_trimmed _ _ H2))).
Defined.

(** ** Round trip through the layout of the common block *)

Lemma trim_padded (s : string) (padding : list byte) :
  ends_in_cutset s space_and_null = false -> forallb is_padding padding = true ->
  trim (list_byte_of_string s ++ padding) = s.
Proof.
  intros Hend. induction padding as [|c padding IH] using rev_ind; intros Hpad.
  - rewrite app_nil_r. unfold trim. rewrite string_of_list_byte_of_string.
    apply TrimRight_fixed, Hend.
  - rewrite forallb_app in Hpad. apply andb_prop in Hpad as [Hinit Hc].
    cbn [forallb] in Hc. rewrite andb_true_r in Hc.
    rewrite app_assoc, trim_snoc_padding by exact Hc. apply IH, Hinit.
Qed.

Lemma skipn_prefix {A : Type} (pre l : list A) (n : nat) :
  n = length pre -> skipn n (pre ++ l) = l.
Proof.
  intros ->. rewrite skipn_app, skipn_all, Nat.sub_diag. reflexivity.
Qed.

(** A field laid out at its place is decoded to its string. *)
Lemma stringDecode_of_layout (b : bytes) (reg len : Z) (s : string)
  (padding pre post : list byte) :
  1 <= reg <= 2 ^ 60 -> 1 <= len <= 2 ^ 60 ->
  backing b = pre ++ field_of s padding ++ post ->
  Z.to_nat (2 * (reg - 1)) = length pre ->
  fills (Z.to_nat (2 * len)) s padding ->
  trim (decoded_bytes b reg len) = s.
Proof.
  intros Hreg Hlen Hb Hpre (Hfill & Hne & Hpad & Hend).
  unfold decoded_bytes. rewrite Hb, skipn_prefix by exact Hpre. unfold field_of.
  rewrite (app_removelast_last x00 Hne) in Hfill, Hpad |- *.
  rewrite forallb_app in Hpad. apply andb_prop in Hpad as [Hinit _].
  rewrite length_app in Hfill. cbn [length] in Hfill.
  rewrite (app_assoc (list_byte_of_string s)), <- (app_assoc _ [last padding x00]).
  rewrite firstn_app.
  replace (Z.to_nat (2 * len - 1) - length (list_byte_of_string s ++ removelast padding))%nat
    with 0%nat
    by (rewrite length_app, list_byte_of_string_length; lia).
  cbn [firstn]. rewrite app_nil_r, firstn_all2
    by (rewrite length_app, list_byte_of_string_length; lia).
  apply trim_padded; assumption.
Qed.

Lemma fills_length (n : nat) (s : string) (padding : list byte) :
  fills n s padding -> length (field_of s padding) = n.
Proof.
  intros (Hfill & _). unfold field_of.
  rewrite length_app, list_byte_of_string_length. exact Hfill.
Qed.

(** Round trip: four strings that do not end in a space or a null byte,
    each laid out in its field of a common block behind the signature and
    followed there by one byte or more of padding, spaces or null bytes in
    any mix, so that it fills the field (32 bytes for manufacturer, model and
    serial, 16 for the version), are decoded to exactly these strings; the
    other registers, the bytes behind the serial field and the spare
    capacity do not matter. *)
Theorem Decode_round_trip (id options : list byte)
  (manufacturer model version serial : string)
  (pad1 pad2 pad3 pad4 rest sp : list byte) :
  length id = 4%nat -> length options = 16%nat ->
  fills 32 manufacturer pad1 -> fills 32 model pad2 ->
  fills 16 version pad3 -> fills 32 serial pad4 ->
  DecodeSunSpecCommonBlock
    (mkBytes (common_block id options (field_of manufacturer pad1) (field_of model pad2)
                (field_of version pad3) (field_of serial pad4) rest) sp) =
  Returns (mkDescriptor manufacturer model version serial, None).
Proof.
  intros Hid Hopt F1 F2 F3 F4.
  set (b := mkBytes (common_block id options (field_of manufacturer pad1)
                       (field_of model pad2) (field_of version pad3)
                       (field_of serial pad4) rest) sp).
  pose proof (fills_length _ _ _ F1) as P1. pose proof (fills_length _ _ _ F2) as P2.
  pose proof (fills_length _ _ _ F3) as P3. pose proof (fills_length _ _ _ F4) as P4.
  assert (Hlen : len b = 136 + Z.of_nat (length rest)).
  { unfold len, b, common_block. cbn [elems].
    rewrite !length_app, P1, P2, P3, P4, Hid, Hopt. cbn [suns length]. lia. }
  assert (Hsig : has_signature b) by reflexivity.
  rewrite Decode_returns;
    [ | unfold sunspecSerial; lia | exact Hsig | pose proof (len_le_cap b); lia ].
  assert (D1 : trim (decoded_bytes b sunspecManufacturer 16) = manufacturer).
  { apply (stringDecode_of_layout b _ _ manufacturer pad1 (suns ++ id)
             (field_of model pad2 ++ options ++ field_of version pad3
              ++ field_of serial pad4 ++ rest ++ sp));
      [unfold sunspecManufacturer; lia | lia | | | exact F1].
    - unfold backing, b, common_block. cbn [elems spare].
      repeat rewrite <- app_assoc. reflexivity.
    - rewrite length_app, Hid. reflexivity. }
  assert (D2 : trim (decoded_bytes b sunspecModel 16) = model).
  { apply (stringDecode_of_layout b _ _ model pad2
             (suns ++ id ++ field_of manufacturer pad1)
             (options ++ field_of version pad3 ++ field_of serial pad4 ++ rest ++ sp));
      [unfold sunspecModel; lia | lia | | | exact F2].
    - unfold backing, b, common_block. cbn [elems spare].
      repeat rewrite <- app_assoc. reflexivity.
    - rewrite !length_app, Hid, P1. reflexivity. }
  assert (D3 : trim (decoded_bytes b sunspecVersion 8) = version).
  { apply (stringDecode_of_layout b _ _ version pad3
             (suns ++ id ++ field_of manufacturer pad1 ++ field_of model pad2 ++ options)
             (field_of serial pad4 ++ rest ++ sp));
      [unfold sunspecVersion; lia | lia | | | exact F3].
    - unfold backing, b, common_block. cbn [elems spare].
      repeat rewrite <- app_assoc. reflexivity.
    - rewrite !length_app, Hid, P1, P2, Hopt. reflexivity. }
  assert (D4 : trim (decoded_bytes b sunspecSerial 16) = serial).
  { apply (stringDecode_of_layout b _ _ serial pad4
             (suns ++ id ++ field_of manufacturer pad1 ++ field_of model pad2 ++ options
              ++ field_of version pad3)
             (rest ++ sp));
      [unfold sunspecSerial; lia | lia | | | exact F4].
    - unfold backing, b, common_block. cbn [elems spare].
      repeat rewrite <- app_assoc. reflexivity.
    - rewrite !length_app, Hid, P1, P2, P3, Hopt. reflexivity. }
  rewrite D1, D2, D3, D4. reflexivity.
Qed.

(** Two blocks of the layout: one whose fields are padded with spaces or
    with null bytes, field by field, and one with mixed padding, bytes
    behind the serial field and spare capacity. *)
Lemma Decode_round_trip_witness :
  DecodeSunSpecCommonBlock padded_block =
    Returns (mkDescriptor "Fronius" "PV-5000" "1.2.3" "SN0042", None) /\
  DecodeSunSpecCommonBlock
    (mkBytes (common_block [x00; x01; x00; x42] (repeat xff 16)
                (field_of "SMA Solar" (repeat x00 20 ++ repeat x20 3))
                (field_of "Sunny Boy 5.0" (repeat x20 19))
                (field_of "03.10.21.R" (repeat x00 6))
                (field_of "1930123456" (x20 :: repeat x00 21)) [x00; x07]) [x00]) =
    Returns (mkDescriptor "SMA Solar" "Sunny Boy 5.0" "03.10.21.R" "1930123456", None).
Proof.
  assert (Hfill : forall n s padding,
             (String.length s + length padding =? n)%nat = true ->
             (match padding with [] => false | _ => true end) = true ->
             forallb is_padding padding = true ->
             ends_in_cutset s space_and_null = false -> fills n s padding).
  { intros n s padding Hn Hne Hpad Hend. repeat split; try assumption.
    - apply Nat.eqb_eq, Hn.
    - destruct padding; [discriminate Hne | discriminate]. }
  split.
  - apply (Decode_round_trip [x00; x01; x00; x42] (repeat x00 16)
             "Fronius" "PV-5000" "1.2.3" "SN0042"
             (repeat x20 25) (repeat x20 25) (repeat x00 11) (repeat x20 26) [] []);
      try reflexivity; apply Hfill; reflexivity.
  - apply (Decode_round_trip [x00; x01; x00; x42] (repeat xff 16)
             "SMA Solar" "Sunny Boy 5.0" "03.10.21.R" "1930123456"
             (repeat x00 20 ++ repeat x20 3) (repeat x20 19) (repeat x00 6)
             (x20 :: repeat x00 21) [x00; x07] [x00]);
      try reflexivity; apply Hfill; reflexivity.
Defined.

(** ** [minMax] *)

Section MinMax.

Variable Measurement : Type.
Variable ReadHoldingReg : Z.
Variable Split : Measurement.
Variable p : SunSpecCore Measurement.

(** For a list that is not empty, of measurements resolved to [uint16]
    offsets, [minMax] returns the least and the greatest of the offsets:
    both are offsets of the list, and every offset lies between them. *)
Theorem minMax_least_and_greatest (iecs : list Measurement) :
  Opcode_uint16 p -> iecs <> [] ->
  is_least (offsets p iecs) (fst (minMax p iecs)) /\
  is_greatest (offsets p iecs) (snd (minMax p iecs)).
Proof.
  intros Hp Hne. unfold minMax. rewrite minMax_fold. cbn [fst snd].
  pose proof (offsets_uint16 _ p iecs Hp) as Hrange. rewrite Forall_forall in Hrange.
  assert (Hone : exists o, In o (offsets p iecs)).
  { destruct iecs as [|m rest]; [contradiction|]. exists (Opcode p m). left. reflexivity. }
  destruct Hone as (o & Ho). pose proof (Hrange o Ho) as Hor.
  destruct (fold_min_bounds (offsets p iecs) 0xFFFF) as (Hmin_acc & Hmin_all & Hmin_in).
  destruct (fold_max_bounds (offsets p iecs) 0x0000) as (Hmax_acc & Hmax_all & Hmax_in).
  split; (split; [|assumption]).
  - destruct Hmin_in as [Heq|Hin]; [|exact Hin].
    rewrite Forall_forall in Hmin_all. pose proof (Hmin_all o Ho) as Hle.
    replace (fold_left Z.min (offsets p iecs) 0xFFFF) with o by lia. exact Ho.
  - destruct Hmax_in as [Heq|Hin]; [|exact Hin].
    rewrite Forall_forall in Hmax_all. pose proof (Hmax_all o Ho) as Hle.
    replace (fold_left Z.max (offsets p iecs) 0x0000) with o by lia. exact Ho.
Qed.

Lemma fold_min_permutation (l l' : list Z) :
  Permutation l l' -> forall acc, fold_left Z.min l acc = fold_left Z.min l' acc.
Proof.
  induction 1 as [|x l l' _ IH|x y l|l l' l'' _ IH1 _ IH2]; intros acc; cbn [fold_left].
  - reflexivity.
  - apply IH.
  - f_equal. lia.
  - rewrite IH1. apply IH2.
Qed.

Lemma fold_max_permutation (l l' : list Z) :
  Permutation l l' -> forall acc, fold_left Z.max l acc = fold_left Z.max l' acc.
Proof.
  induction 1 as [|x l l' _ IH|x y l|l l' l'' _ IH1 _ IH2]; intros acc; cbn [fold_left].
  - reflexivity.
  - apply IH.
  - f_equal. lia.
  - rewrite IH1. apply IH2.
Qed.

(** The order of the measurements does not matter to the span of a block:
    for a rearrangement of the list [minMax] returns the same pair, and
    [scaleSnip16] and [scaleSnip32] build operations with the same address
    and the same register count. *)
Theorem minMax_order_independent
  (splitter : list Measurement -> Splitter Measurement)
  (iecs iecs' : list Measurement) :
  Permutation iecs iecs' ->
  minMax p iecs = minMax p iecs' /\
  Operation.OpCode (scaleSnip16 ReadHoldingReg Split p splitter iecs) =
    Operation.OpCode (scaleSnip16 ReadHoldingReg Split p splitter iecs') /\
  Operation.ReadLen (scaleSnip16 ReadHoldingReg Split p splitter iecs) =
    Operation.ReadLen (scaleSnip16 ReadHoldingReg Split p splitter iecs') /\
  Operation.ReadLen (scaleSnip32 ReadHoldingReg Split p splitter iecs) =
    Operation.ReadLen (scaleSnip32 ReadHoldingReg Split p splitter iecs').
Proof.
  intros Hperm.
  assert (Hmm : minMax p iecs = minMax p iecs').
  { unfold minMax. rewrite !minMax_fold.
    assert (Hoff : Permutation (offsets p iecs) (offsets p iecs'))
      by (apply Permutation_map; exact Hperm).
    rewrite (fold_min_permutation _ _ Hoff), (fold_max_permutation _ _ Hoff).
    reflexivity. }
  split; [exact Hmm|].
  unfold scaleSnip32, scaleSnip16. rewrite Hmm.
  destruct (minMax p iecs') as [mn mx]. cbn [Operation.OpCode Operation.ReadLen].
  repeat split.
Qed.

End MinMax.

Lemma minMax_least_and_greatest_witness :
  is_least (offsets wide_core [true; false; true]) 1 /\
  is_greatest (offsets wide_core [true; false; true]) 65535.
Proof.
  assert (Hp : Opcode_uint16 wide_core) by (intros m; destruct m; cbn; lia).
  assert (Hne : [true; false; true] <> []) by discriminate.
  exact (minMax_least_and_greatest bool wide_core [true; false; true] Hp Hne).
Defined.

Lemma minMax_order_independent_witness :
  minMax example_core [12; 10; 12] = minMax example_core [10; 12; 12].
Proof.
  assert (Hperm : Permutation [12; 10; 12] [10; 12; 12]) by apply perm_swap.
  exact (proj1 (minMax_order_independent Z 3 0 example_core (mkSplitUint16 example_core)
                  [12; 10; 12] [10; 12; 12] Hperm)).
Defined.

(** ** A block of the requested size fits its splitter *)

Lemma RTUUint16ToFloat64WithNaN_returns (s : bytes) :
  2 <= len s -> is_returns (RTUUint16ToFloat64WithNaN s) = true.
Proof.
  destruct s as [el sp]. unfold len. cbn [elems].
  destruct el as [|b0 [|b1 rest]]; cbn [length]; try lia.
  intros _. rewrite RTUUint16ToFloat64WithNaN_value. reflexivity.
Qed.

Lemma uint32_decoder_returns (scaler : float64) (s : bytes) :
  4 <= len s -> is_returns (uint32_decoder scaler s) = true.
Proof.
  destruct s as [el sp]. unfold len. cbn [elems].
  destruct el as [|b0 [|b1 [|b2 [|b3 rest]]]]; cbn [length]; try lia.
  intros _. reflexivity.
Qed.

Section BlockFits.

Variable Measurement : Type.
Variable ReadHoldingReg : Z.
Variable Split : Measurement.
Variable p : SunSpecCore Measurement.

(** Every offset of the list lies between the two values of [minMax], which
    are [uint16] values. *)
Lemma minMax_brackets (iecs : list Measurement) (m : Measurement) :
  Opcode_uint16 p -> In m iecs ->
  0 <= fst (minMax p iecs) <= Opcode p m /\
  Opcode p m <= snd (minMax p iecs) < 65536.
Proof.
  intros Hp Hm. unfold minMax. rewrite minMax_fold. cbn [fst snd].
  pose proof (offsets_uint16 _ p iecs Hp) as Hrange. rewrite Forall_forall in Hrange.
  assert (Ho : In (Opcode p m) (offsets p iecs)) by (apply in_map; exact Hm).
  destruct (fold_min_bounds (offsets p iecs) 0xFFFF) as (_ & Hmin_all & Hmin_in).
  destruct (fold_max_bounds (offsets p iecs) 0x0000) as (_ & Hmax_all & Hmax_in).
  rewrite Forall_forall in Hmin_all, Hmax_all.
  pose proof (Hmin_all _ Ho). pose proof (Hmax_all _ Ho).
  assert (0 <= fold_left Z.min (offsets p iecs) 0xFFFF)
    by (destruct Hmin_in as [->|Hin]; [lia | apply Hrange; exact Hin]).
  assert (fold_left Z.max (offsets p iecs) 0x0000 < 65536)
    by (destruct Hmax_in as [->|Hin]; [lia | apply Hrange; exact Hin]).
  lia.
Qed.

(** A splitter returns on a block that holds the exponent and, at the index
    of every measurement, the bytes its decoder needs. *)
Lemma mkBlockSplitter_returns (dataSize : Z) (valFunc : bytes -> outcome float64)
  (need : Z) (iecs : list Measurement) (b : bytes) :
  0 <= need -> 2 <= len b ->
  (forall s, need <= len s -> is_returns (valFunc s) = true) ->
  (forall m, In m iecs ->
     block_index dataSize (fst (minMax p iecs)) (Opcode p m) + need <= len b) ->
  exists res, mkBlockSplitter p dataSize valFunc iecs b = Returns res.
Proof.
  intros Hneed Hlen Hval Hidx. rewrite mkBlockSplitter_eq.
  rewrite (proj2 (Z.leb_le 2 (len b)) Hlen). rewrite split_loop_eq.
  replace (forallb _ iecs) with true; [eexists; reflexivity|].
  symmetry. apply forallb_forall. intros m Hm. unfold reading.
  change (uint16 (dataSize * uint16 (Opcode p m - fst (minMax p iecs))))
    with (block_index dataSize (fst (minMax p iecs)) (Opcode p m)).
  pose proof (Hidx m Hm) as Hi.
  set (i := block_index dataSize (fst (minMax p iecs)) (Opcode p m)) in *.
  assert (H0 : 0 <= i) by (subst i; unfold block_index; apply uint16_range).
  unfold slice_from.
  rewrite (proj2 (Z.leb_le 0 i) H0), (proj2 (Z.leb_le i (len b))) by lia.
  cbn [andb bind]. apply Hval. unfold len in *. cbn [elems].
  rewrite length_skipn. lia.
Qed.

Lemma block_index_le (dataSize mn op : Z) :
  0 <= dataSize -> 0 <= op - mn < 65536 ->
  0 <= block_index dataSize mn op <= dataSize * (op - mn) /\
  (dataSize * (op - mn) < 65536 -> block_index dataSize mn op = dataSize * (op - mn)).
Proof.
  intros Hd Hop. unfold block_index. rewrite (uint16_small (op - mn)) by exact Hop.
  pose proof (uint16_range (dataSize * (op - mn))) as Hr.
  split.
  - split; [lia|]. unfold uint16. apply Z.mod_le; nia.
  - intros Hsmall. apply uint16_small. nia.
Qed.



End BlockFits.

Lemma example_core_uint16 : Opcode_uint16 example_core.
Proof.
  intros m. unfold example_core. cbn [Opcode]. destruct (m =? 10); lia.
Qed.



(** ** What a splitter returns *)

Section SplitterResults.

Variable Measurement : Type.
Variable ReadHoldingReg : Z.
Variable p : SunSpecCore Measurement.

Lemma mkBlockSplitter_returns_inv (dataSize : Z) (valFunc : bytes -> outcome float64)
  (iecs : list Measurement) (b : bytes) (res : list (SplitResult.t Measurement)) :
  mkBlockSplitter p dataSize valFunc iecs b = Returns res ->
  2 <= len b /\
  (forall m, In m iecs ->
     is_returns (reading p dataSize valFunc (fst (minMax p iecs)) b m) = true) /\
  res = flat_map (emitted p dataSize valFunc (fst (minMax p iecs))
                    (math.Pow10 (int16 (last_uint16 b))) b) iecs.
Proof.
  rewrite mkBlockSplitter_eq.
  destruct (Z.leb_spec 2 (len b)) as [Hlen|Hlen]; [|discriminate].
  rewrite split_loop_eq. destruct (forallb _ iecs) eqn:Hall; [|discriminate].
  intros Hres. injection Hres as <-. rewrite forallb_forall in Hall.
  split; [exact Hlen|]. split; [exact Hall | reflexivity].
Qed.

Lemma In_emitted (dataSize : Z) (valFunc : bytes -> outcome float64)
  (mn : Z) (scaler : float64) (b : bytes) (m : Measurement)
  (r : SplitResult.t Measurement) :
  In r (emitted p dataSize valFunc mn scaler b m) ->
  exists val,
    reading p dataSize valFunc mn b m = Returns val /\ math.IsNaN val = false /\
    r = SplitResult.mk (uint16 (uint16 (sunspecBase + Opcode p m) - 1)) m
                       (PrimFloat.mul scaler val).
Proof.
  unfold emitted. destruct (reading p dataSize valFunc mn b m) as [val|]; [|contradiction].
  destruct (math.IsNaN val) eqn:Hnan; [contradiction|].
  intros [<-|[]]. exists val. repeat split. exact Hnan.
Qed.

(** Whatever the decoder, a splitter that returns has read a block of two
    bytes or more, returns at most one result per measurement, and each
    result carries a measurement of the list, the address of the
    single-value operation [snip] builds for this measurement, and the
    product of the scaler [10^exponent] with a reading that is a number. *)
Theorem mkBlockSplitter_results (dataSize : Z) (valFunc : bytes -> outcome float64)
  (iecs : list Measurement) (b : bytes) (res : list (SplitResult.t Measurement)) :
  mkBlockSplitter p dataSize valFunc iecs b = Returns res ->
  2 <= len b /\
  (length res <= length iecs)%nat /\
  forall r, In r res ->
    In (SplitResult.IEC61850 r) iecs /\
    (forall readlen,
        SplitResult.OpCode r =
        Operation.OpCode (snip ReadHoldingReg p (SplitResult.IEC61850 r) readlen)) /\
    exists val,
      reading p dataSize valFunc (fst (minMax p iecs)) b (SplitResult.IEC61850 r)
        = Returns val /\
      math.IsNaN val = false /\
      SplitResult.Value r = PrimFloat.mul (math.Pow10 (int16 (last_uint16 b))) val.
Proof.
  intros Hret. apply mkBlockSplitter_returns_inv in Hret as (Hlen & _ & ->).
  split; [exact Hlen|]. split.
  - rewrite <- (length_map SplitResult.IEC61850), emitted_measurements.
    apply filter_length_le.
  - intros r Hr. apply in_flat_map in Hr as (m & Hm & Hr).
    apply In_emitted in Hr as (val & Hread & Hnan & ->).
    cbn [SplitResult.IEC61850 SplitResult.OpCode SplitResult.Value].
    split; [exact Hm|]. split; [reflexivity|].
    exists val. repeat split; assumption.
Qed.

(** With no bytes for the exponent a splitter panics, whatever the decoder
    and the measurements, an empty list included; on a longer block the
    splitter of an empty list returns no result. *)
Theorem mkBlockSplitter_short_block (dataSize : Z) (valFunc : bytes -> outcome float64)
  (iecs : list Measurement) (b : bytes) :
  (len b < 2 -> mkBlockSplitter p dataSize valFunc iecs b = Panics) /\
  (2 <= len b -> mkBlockSplitter p dataSize valFunc [] b = Returns []).
Proof.
  split; intros Hlen; rewrite mkBlockSplitter_eq.
  - rewrite (proj2 (Z.leb_gt 2 (len b)) Hlen). reflexivity.
  - rewrite (proj2 (Z.leb_le 2 (len b)) Hlen). reflexivity.
Qed.

Lemma emitted_RTUUint16 (mn : Z) (scaler : float64) (b : bytes) (m : Measurement) :
  is_returns (reading p 2 RTUUint16ToFloat64WithNaN mn b m) = true ->
  emitted p 2 RTUUint16ToFloat64WithNaN mn scaler b m =
  if sentinel_at b (block_index 2 mn (Opcode p m)) then []
  else [SplitResult.mk (uint16 (sunspecBase + Opcode p m - 1)) m
          (PrimFloat.mul scaler
             (float64_of_uint (raw_value b (block_index 2 mn (Opcode p m)))))].
Proof.
  unfold emitted, sentinel_at, raw_value. rewrite reading_RTUUint16.
  destruct (raw_bytes b _) as [[b0 b1]|]; [|discriminate]. intros _.
  rewrite sentinel_value.
  destruct (Byte.eqb b0 xff && Byte.eqb b1 xff) eqn:Hs; [reflexivity|].
  rewrite <- sentinel_value in Hs.
  destruct (be16 b0 b1 =? 0xffff); [discriminate Hs|].
  rewrite uint16_sub_l. reflexivity.
Qed.

(** What [mkSplitUint16] returns, in full: for the measurements whose raw
    bytes are not the sentinel, in the order of the list, the address
    [40000 + offset - 1] modulo 2^16, the measurement, and the raw big-endian
    value at byte [2*(offset-min)] times [10^exponent], the exponent being
    the last two bytes of the block read as a signed integer. *)
Theorem mkSplitUint16_values (iecs : list Measurement) (b : bytes)
  (res : list (SplitResult.t Measurement)) :
  mkSplitUint16 p iecs b = Returns res ->
  let index m := block_index 2 (fst (minMax p iecs)) (Opcode p m) in
  res =
  map (fun m => SplitResult.mk (uint16 (40000 + Opcode p m - 1)) m
                  (PrimFloat.mul (math.Pow10 (int16 (last_uint16 b)))
                                 (float64_of_uint (raw_value b (index m)))))
      (filter (fun m => negb (sentinel_at b (index m))) iecs).
Proof.
  intros Hret index. subst index. cbn beta. unfold mkSplitUint16 in Hret.
  apply mkBlockSplitter_returns_inv in Hret as (_ & Hall & ->).
  set (mn := fst (minMax p iecs)) in *. clearbody mn.
  induction iecs as [|m rest IH]; [reflexivity|].
  cbn [flat_map filter].
  rewrite IH by (intros m' Hm'; apply Hall; right; exact Hm').
  rewrite emitted_RTUUint16 by (apply Hall; left; reflexivity).
  destruct (sentinel_at b (block_index 2 mn (Opcode p m))); reflexivity.
Qed.

Lemma split_loop_same_readings (dataSize : Z) (valFunc : bytes -> outcome float64)
  (mn : Z) (scaler : float64) (b1 b2 : bytes) (iecs : list Measurement) :
  (forall m, In m iecs ->
     reading p dataSize valFunc mn b1 m = reading p dataSize valFunc mn b2 m) ->
  forall res,
    split_loop p dataSize valFunc mn scaler b1 iecs res =
    split_loop p dataSize valFunc mn scaler b2 iecs res.
Proof.
  induction iecs as [|m rest IH]; intros Hsame res; [reflexivity|].
  rewrite !split_loop_cons, (Hsame m) by (left; reflexivity).
  destruct (reading p dataSize valFunc mn b2 m) as [val|]; cbn [bind]; [|reflexivity].
  destruct (math.IsNaN val); apply IH; intros m' Hm'; apply Hsame; right; exact Hm'.
Qed.

(** The registers no measurement names do not matter: on two blocks of the
    same length that end in the same exponent and hold the same two bytes at
    the index of every measurement, [mkSplitUint16] has the same outcome. *)
Theorem mkSplitUint16_frame (iecs : list Measurement) (b1 b2 : bytes) :
  len b1 = len b2 -> last_uint16 b1 = last_uint16 b2 ->
  (forall m, In m iecs ->
     raw_bytes b1 (block_index 2 (fst (minMax p iecs)) (Opcode p m)) =
     raw_bytes b2 (block_index 2 (fst (minMax p iecs)) (Opcode p m))) ->
  mkSplitUint16 p iecs b1 = mkSplitUint16 p iecs b2.
Proof.
  intros Hlen Hexp Hraw. unfold mkSplitUint16. rewrite !mkBlockSplitter_eq, Hlen, Hexp.
  destruct (2 <=? len b2); [|reflexivity].
  apply split_loop_same_readings. intros m Hm.
  rewrite !reading_RTUUint16, (Hraw m Hm). reflexivity.
Qed.

End SplitterResults.

Lemma mkBlockSplitter_results_witness :
  (length [SplitResult.mk 40011 12 (PrimFloat.mul 1 (float64_of_uint 1234))]
   <= length [12; 10])%nat.
Proof.
  assert (Hret : mkBlockSplitter example_core 2 RTUUint16ToFloat64WithNaN [12; 10]
                   (mkBytes [xff; xff; x01; x00; x04; xd2; x00; x00] []) =
                 Returns [SplitResult.mk 40011 12 (PrimFloat.mul 1 (float64_of_uint 1234))])
    by (vm_compute; reflexivity).
  exact (proj1 (proj2 (mkBlockSplitter_results Z 3 example_core 2 RTUUint16ToFloat64WithNaN
                         [12; 10] _ _ Hret))).
Defined.

Lemma mkSplitUint16_values_witness :
  [SplitResult.mk 40011 12 (PrimFloat.mul 1 (float64_of_uint 1234))] =
  map (fun m => SplitResult.mk (uint16 (40000 + Opcode example_core m - 1)) m
                  (PrimFloat.mul (math.Pow10 (int16 0))
                     (float64_of_uint
                        (raw_value (mkBytes [xff; xff; x01; x00; x04; xd2; x00; x00] [])
                           (block_index 2 10 (Opcode example_core m))))))
      [12].
Proof.
  assert (Hret : mkSplitUint16 example_core [12; 10]
                   (mkBytes [xff; xff; x01; x00; x04; xd2; x00; x00] []) =
                 Returns [SplitResult.mk 40011 12 (PrimFloat.mul 1 (float64_of_uint 1234))])
    by (vm_compute; reflexivity).
  exact (mkSplitUint16_values Z example_core [12; 10] _ _ Hret).
Defined.

Lemma mkSplitUint16_frame_witness :
  mkSplitUint16 example_core [10; 12]
    (mkBytes [x00; x0a; x01; x00; x04; xd2; xff; xff] []) =
  mkSplitUint16 example_core [10; 12]
    (mkBytes [x00; x0a; xab; xcd; x04; xd2; xff; xff] [x00]).
Proof.
  apply (mkSplitUint16_frame Z example_core [10; 12]); [reflexivity | reflexivity |].
  intros m [<-|[<-|[]]]; reflexivity.
Defined.

(** ** The sentinel-aware decoder loses nothing *)

Lemma float64_to_Z_of_uint16 (u : Z) :
  0 <= u < 65536 -> float64_to_Z (float64_of_uint u) = u.
Proof.
  intros Hu.
  assert (Hall : check_range 16 (fun z => float64_to_Z (float64_of_uint z) =? z) 0 = true)
    by (vm_compute; reflexivity).
  pose proof (check_range_sound 16 _ 0 Hall u) as Hz.
  apply Z.eqb_eq. apply Hz. simpl. lia.
Qed.

Lemma be16_inj (a0 a1 b0 b1 : byte) :
  be16 a0 a1 = be16 b0 b1 -> a0 = b0 /\ a1 = b1.
Proof.
  unfold be16. intros H.
  pose proof (byte_val_range a0). pose proof (byte_val_range a1).
  pose proof (byte_val_range b0). pose proof (byte_val_range b1).
  split; apply byte_val_inj; lia.
Qed.

Lemma RTUUint16ToFloat64WithNaN_raw (s : bytes) :
  RTUUint16ToFloat64WithNaN s =
  match raw_bytes s 0 with
  | Some (b0, b1) =>
      Returns (if be16 b0 b1 =? 0xffff then math.NaN else float64_of_uint (be16 b0 b1))
  | None => Panics
  end.
Proof.
  destruct s as [el sp]. unfold raw_bytes. cbn [elems Z.to_nat skipn].
  destruct el as [|b0 [|b1 rest]]; try reflexivity.
  apply RTUUint16ToFloat64WithNaN_value.
Qed.

(** The decoder panics exactly on slices shorter than two bytes, and it is
    lossless: two slices decoded to the same value begin with the same two
    bytes, and a value that is a number, read back as an integer, is the
    big-endian value of these bytes. *)
Theorem RTUUint16ToFloat64WithNaN_lossless (s1 s2 : bytes) :
  (RTUUint16ToFloat64WithNaN s1 = Panics <-> len s1 < 2) /\
  (forall v, RTUUint16ToFloat64WithNaN s1 = Returns v ->
             RTUUint16ToFloat64WithNaN s2 = Returns v ->
             raw_bytes s1 0 = raw_bytes s2 0) /\
  (forall v, RTUUint16ToFloat64WithNaN s1 = Returns v -> math.IsNaN v = false ->
             float64_to_Z v = raw_value s1 0).
Proof.
  split; [|split].
  - rewrite RTUUint16ToFloat64WithNaN_raw. split.
    + intros Hp.
      assert (Hnone : raw_bytes s1 0 = None)
        by (destruct (raw_bytes s1 0) as [[b0 b1]|]; [discriminate | reflexivity]).
      pose proof (raw_bytes_missing s1 0 ltac:(lia) Hnone). lia.
    + intros Hlen. destruct (raw_bytes s1 0) as [[b0 b1]|] eqn:Hraw; [|reflexivity].
      unfold raw_bytes in Hraw. cbn [Z.to_nat skipn] in Hraw. unfold len in Hlen.
      destruct (elems s1) as [|c0 [|c1 rest]]; cbn [length] in Hlen; try discriminate; lia.
  - intros v. rewrite !RTUUint16ToFloat64WithNaN_raw.
    destruct (raw_bytes s1 0) as [[a0 a1]|]; [|discriminate].
    destruct (raw_bytes s2 0) as [[b0 b1]|]; [|discriminate].
    intros H1 H2. injection H1 as <-. injection H2 as H2.
    pose proof (sentinel_value a0 a1) as Na. pose proof (sentinel_value b0 b1) as Nb.
    rewrite <- H2 in Na. rewrite Nb in Na.
    destruct (be16 a0 a1 =? 0xffff) eqn:Sa, (be16 b0 b1 =? 0xffff) eqn:Sb.
    + apply Z.eqb_eq, be16_sentinel in Sa, Sb. destruct Sa as [-> ->], Sb as [-> ->].
      reflexivity.
    + apply Z.eqb_eq, be16_sentinel in Sa. destruct Sa as [-> ->].
      rewrite <- sentinel_value, Sb, (float64_of_uint16_not_NaN _ (be16_range b0 b1)) in Na.
      discriminate.
    + apply Z.eqb_eq, be16_sentinel in Sb. destruct Sb as [-> ->].
      rewrite <- (sentinel_value a0 a1), Sa,
        (float64_of_uint16_not_NaN _ (be16_range a0 a1)) in Na.
      discriminate.
    + apply (f_equal float64_to_Z) in H2.
      rewrite !float64_to_Z_of_uint16 in H2 by apply be16_range.
      symmetry in H2. apply be16_inj in H2 as [-> ->]. reflexivity.
  - intros v. rewrite RTUUint16ToFloat64WithNaN_raw. unfold raw_value.
    destruct (raw_bytes s1 0) as [[a0 a1]|]; [|discriminate].
    intros H1 Hnan. injection H1 as <-.
    destruct (be16 a0 a1 =? 0xffff); [discriminate Hnan|].
    apply float64_to_Z_of_uint16, be16_range.
Qed.

(** ** Not-a-number among the results *)

Lemma shr_1_nonneg (mrs : SpecFloat.shr_record) :
  0 <= SpecFloat.shr_m mrs -> 0 <= SpecFloat.shr_m (SpecFloat.shr_1 mrs).
Proof.
  destruct mrs as [m r s]. cbn [SpecFloat.shr_m].
  destruct m as [|q|q]; [| destruct q | destruct q]; cbn; lia.
Qed.

Lemma iter_shr_1_nonneg (n : positive) :
  forall mrs, 0 <= SpecFloat.shr_m mrs ->
              0 <= SpecFloat.shr_m (SpecFloat.iter_pos SpecFloat.shr_1 n mrs).
Proof.
  induction n as [n IH|n IH|]; intros mrs Hm; cbn [SpecFloat.iter_pos].
  - apply IH, IH, shr_1_nonneg, Hm.
  - apply IH, IH, Hm.
  - apply shr_1_nonneg, Hm.
Qed.

Lemma shr_fexp_nonneg (m e : Z) (l : SpecFloat.location) :
  0 <= m -> 0 <= SpecFloat.shr_m (fst (SpecFloat.shr_fexp prec emax m e l)).
Proof.
  intros Hm. unfold SpecFloat.shr_fexp, SpecFloat.shr.
  assert (H0 : 0 <= SpecFloat.shr_m (SpecFloat.shr_record_of_loc m l))
    by (destruct l as [|[]]; exact Hm).
  destruct (_ - e) as [|n|n]; cbn [fst]; [exact H0 | | exact H0].
  apply iter_shr_1_nonneg, H0.
Qed.

Lemma round_nearest_even_nonneg (m : Z) (l : SpecFloat.location) :
  0 <= m -> 0 <= SpecFloat.round_nearest_even m l.
Proof.
  intros Hm. destruct l as [|[]]; cbn; try destruct (Z.even m); lia.
Qed.

Lemma binary_round_aux_not_nan (sx : bool) (mx ex : Z) (lx : SpecFloat.location) :
  0 <= mx -> SpecFloat.binary_round_aux prec emax sx mx ex lx <> SpecFloat.S754_nan.
Proof.
  intros Hm. unfold SpecFloat.binary_round_aux.
  pose proof (shr_fexp_nonneg mx ex lx Hm) as H1.
  destruct (SpecFloat.shr_fexp prec emax mx ex lx) as [mrs' e']. cbn [fst] in H1.
  pose proof (shr_fexp_nonneg _ e' SpecFloat.loc_Exact
                (round_nearest_even_nonneg _ (SpecFloat.loc_of_shr_record mrs') H1)) as H2.
  destruct (SpecFloat.shr_fexp prec emax _ e' SpecFloat.loc_Exact) as [mrs'' e''].
  cbn [fst] in H2.
  destruct (SpecFloat.shr_m mrs'') as [|q|q]; [discriminate | | lia].
  destruct (e'' <=? emax - prec); discriminate.
Qed.

Lemma SFmul_not_nan (x y : SpecFloat.spec_float) :
  is_finite_SF x = true -> is_finite_SF y = true ->
  SpecFloat.SFmul prec emax x y <> SpecFloat.S754_nan.
Proof.
  destruct x, y; cbn [is_finite_SF SpecFloat.SFmul]; try discriminate; intros _ _.
  apply binary_round_aux_not_nan. lia.
Qed.

Lemma SFeqb_refl (z : SpecFloat.spec_float) :
  z <> SpecFloat.S754_nan -> SpecFloat.SFeqb z z = true.
Proof.
  destruct z as [s|s| |s m e]; intros Hz; unfold SpecFloat.SFeqb, SpecFloat.SFcompare.
  - reflexivity.
  - destruct s; reflexivity.
  - contradiction.
  - rewrite Z.compare_refl, Pos.compare_cont_refl. destruct s; reflexivity.
Qed.

(** The product of two floats that are zero or finite is a number. *)
Lemma mul_finite_not_NaN (x y : float64) :
  is_finite_SF (Prim2SF x) = true -> is_finite_SF (Prim2SF y) = true ->
  math.IsNaN (PrimFloat.mul x y) = false.
Proof.
  intros Hx Hy. unfold math.IsNaN. rewrite FloatAxioms.eqb_spec, FloatAxioms.mul_spec.
  unfold SF64mul. rewrite SFeqb_refl; [reflexivity|].
  apply SFmul_not_nan; assumption.
Qed.

Lemma float64_of_uint16_finite (u : Z) :
  0 <= u < 65536 -> is_finite_SF (Prim2SF (float64_of_uint u)) = true.
Proof.
  intros Hu.
  assert (Hall : check_range 16 (fun z => is_finite_SF (Prim2SF (float64_of_uint z))) 0 = true)
    by (vm_compute; reflexivity).
  apply (check_range_sound 16 _ 0 Hall u). simpl. lia.
Qed.

Lemma Pow10_finite (e : Z) :
  -323 <= e <= 308 -> is_finite_SF (Prim2SF (math.Pow10 e)) = true.
Proof.
  intros He.
  assert (Hall : check_range 10
            (fun z => if (-323 <=? z) && (z <=? 308)
                      then is_finite_SF (Prim2SF (math.Pow10 z)) else true) (-512) = true)
    by (vm_compute; reflexivity).
  pose proof (check_range_sound 10 _ (-512) Hall e ltac:(simpl; lia)) as Hz.
  cbn beta in Hz.
  rewrite (proj2 (Z.leb_le (-323) e)), (proj2 (Z.leb_le e 308)) in Hz by lia.
  exact Hz.
Qed.

Lemma Pow10_overflow (e : Z) : 308 < e -> math.Pow10 e = math.Inf.
Proof.
  intros He. unfold math.Pow10.
  rewrite (proj2 (Z.leb_gt e 308)), andb_false_r by lia.
  rewrite (proj2 (Z.leb_gt e 0)), andb_false_r by lia.
  rewrite (proj2 (Z.ltb_lt 0 e)) by lia. reflexivity.
Qed.

Lemma raw_value_range (b : bytes) (i : Z) : 0 <= raw_value b i < 65536.
Proof.
  unfold raw_value. destruct (raw_bytes b i) as [[b0 b1]|]; [apply be16_range | lia].
Qed.

Section NaNResults.

Variable Measurement : Type.
Variable p : SunSpecCore Measurement.

(** The splitter filters not-a-number before it scales.  With an exponent
    from -323 to 308 no result of [mkSplitUint16] holds not-a-number; with
    an exponent above 308 the scaler is infinite, and a measurement whose
    raw value is 0 is returned with the value not-a-number. *)
Theorem mkSplitUint16_NaN_results (iecs : list Measurement) (b : bytes)
  (res : list (SplitResult.t Measurement)) :
  mkSplitUint16 p iecs b = Returns res ->
  (-323 <= int16 (last_uint16 b) <= 308 ->
   forall r, In r res -> math.IsNaN (SplitResult.Value r) = false) /\
  (308 < int16 (last_uint16 b) ->
   forall m, In m iecs ->
     raw_bytes b (block_index 2 (fst (minMax p iecs)) (Opcode p m)) = Some (x00, x00) ->
     exists r, In r res /\ SplitResult.IEC61850 r = m /\
               math.IsNaN (SplitResult.Value r) = true).
Proof.
  unfold mkSplitUint16. intros Hret.
  apply mkBlockSplitter_returns_inv in Hret as (_ & Hall & ->). split.
  - intros Hexp r Hr. apply in_flat_map in Hr as (m & Hm & Hr).
    rewrite emitted_RTUUint16 in Hr by (apply Hall; exact Hm).
    destruct (sentinel_at b _); [contradiction|]. destruct Hr as [<-|[]].
    cbn [SplitResult.Value]. apply mul_finite_not_NaN.
    + apply Pow10_finite, Hexp.
    + apply float64_of_uint16_finite, raw_value_range.
  - intros Hexp m Hm Hraw.
    eexists. split; [apply in_flat_map; exists m; split; [exact Hm|]|].
    + rewrite emitted_RTUUint16 by (apply Hall; exact Hm).
      unfold sentinel_at. rewrite Hraw. left. reflexivity.
    + cbn [SplitResult.IEC61850 SplitResult.Value]. split; [reflexivity|].
      unfold raw_value. rewrite Hraw, (Pow10_overflow _ Hexp). reflexivity.
Qed.

End NaNResults.

Lemma mkSplitUint16_NaN_results_witness :
  (exists r, In r [SplitResult.mk 40009 10 (PrimFloat.mul math.Inf (float64_of_uint 0))]
             /\ math.IsNaN (SplitResult.Value r) = true) /\
  math.IsNaN (PrimFloat.mul 0.1%float (float64_of_uint 10)) = false.
Proof.
  assert (Hhigh : mkSplitUint16 example_core [10]
                    (mkBytes [x00; x00; x01; x35] []) =
                  Returns [SplitResult.mk 40009 10
                             (PrimFloat.mul math.Inf (float64_of_uint 0))])
    by (vm_compute; reflexivity).
  assert (Hlow : mkSplitUint16 example_core [10]
                   (mkBytes [x00; x0a; xff; xff] []) =
                 Returns [SplitResult.mk 40009 10
                            (PrimFloat.mul 0.1%float (float64_of_uint 10))])
    by (vm_compute; reflexivity).
  split.
  - destruct (proj2 (mkSplitUint16_NaN_results Z example_core [10] _ _ Hhigh)
                ltac:(vm_compute; reflexivity) 10 ltac:(left; reflexivity) eq_refl)
      as (r & Hr & _ & Hnan).
    exists r. split; assumption.
  - exact (proj1 (mkSplitUint16_NaN_results Z example_core [10] _ _ Hlow)
             ltac:(vm_compute; split; discriminate) _ ltac:(left; reflexivity)).
Defined.

(** ** The single-value builders *)

Lemma address_injective (a c : Z) :
  0 <= a < 65536 -> 0 <= c < 65536 ->
  uint16 (uint16 (sunspecBase + a) - 1) = uint16 (uint16 (sunspecBase + c) - 1) ->
  a = c.
Proof.
  unfold uint16, sunspecBase. intros Ha Hc H.
  Z.to_euclidean_division_equations. lia.
Qed.

Section SingleValueBuilders.

Variable Measurement : Type.
Variable ReadHoldingReg : Z.
Variable p : SunSpecCore Measurement.

Variable RTUUint16ToFloat64 : bytes -> outcome float64.
Variable MakeRTUScaledUint16ToFloat64 : float64 -> bytes -> outcome float64.
Variable RTUInt16ToFloat64 : bytes -> outcome float64.
Variable MakeRTUScaledInt16ToFloat64 : float64 -> bytes -> outcome float64.
Variable RTUUint32ToFloat64 : bytes -> outcome float64.
Variable MakeRTUScaledUint32ToFloat64 : float64 -> bytes -> outcome float64.

Let u16 := snip16uint ReadHoldingReg p RTUUint16ToFloat64 MakeRTUScaledUint16ToFloat64.
Let i16 := snip16int ReadHoldingReg p RTUInt16ToFloat64 MakeRTUScaledInt16ToFloat64.
Let u32 := snip32 ReadHoldingReg p RTUUint32ToFloat64 MakeRTUScaledUint32ToFloat64.

(** The three single-value builders address a measurement alike, at
    [40000 + offset - 1] modulo 2^16, whatever the scalers, and read one
    register, or two for 32 bits; they never set a splitter, and the decoder
    they set is the plain one of their width when no scaler is given, and
    otherwise the scaled one made from the first scaler, the further
    scalers being ignored.  With [uint16] offsets two measurements get the
    same address exactly when their offsets are equal, and for the offsets 1
    to 25536 the address is [40000 + offset - 1], without wrap-around. *)
Theorem single_value_builders (m m' : Measurement) (scaler scaler' : list float64) :
  Opcode_uint16 p ->
  (Operation.OpCode (u16 m scaler) = uint16 (40000 + Opcode p m - 1) /\
   Operation.OpCode (i16 m scaler) = uint16 (40000 + Opcode p m - 1) /\
   Operation.OpCode (u32 m scaler) = uint16 (40000 + Opcode p m - 1)) /\
  (Operation.ReadLen (u16 m scaler) = 1 /\ Operation.ReadLen (i16 m scaler) = 1 /\
   Operation.ReadLen (u32 m scaler) = 2) /\
  (Operation.Splitter (u16 m scaler) = None /\ Operation.Splitter (i16 m scaler) = None /\
   Operation.Splitter (u32 m scaler) = None) /\
  (Operation.Transform (u16 m []) = Some RTUUint16ToFloat64 /\
   Operation.Transform (i16 m []) = Some RTUInt16ToFloat64 /\
   Operation.Transform (u32 m []) = Some RTUUint32ToFloat64) /\
  (forall s0 rest,
      Operation.Transform (u16 m (s0 :: rest)) = Some (MakeRTUScaledUint16ToFloat64 s0) /\
      Operation.Transform (i16 m (s0 :: rest)) = Some (MakeRTUScaledInt16ToFloat64 s0) /\
      Operation.Transform (u32 m (s0 :: rest)) = Some (MakeRTUScaledUint32ToFloat64 s0)) /\
  (hd_error scaler = hd_error scaler' ->
   u16 m scaler = u16 m scaler' /\ i16 m scaler = i16 m scaler' /\
   u32 m scaler = u32 m scaler') /\
  (Operation.OpCode (u16 m scaler) = Operation.OpCode (u32 m' scaler') <->
   Opcode p m = Opcode p m') /\
  (1 <= Opcode p m <= 25536 ->
   Operation.OpCode (u16 m scaler) = 40000 + Opcode p m - 1 /\
   40000 <= Operation.OpCode (u16 m scaler) < 65536).
Proof.
  intros Hp.
  assert (Haddr : forall n, uint16 (uint16 (sunspecBase + Opcode p n) - 1)
                            = uint16 (40000 + Opcode p n - 1))
    by (intros n; apply uint16_sub_l).
  assert (A16 : forall n sc, Operation.OpCode (u16 n sc) = uint16 (40000 + Opcode p n - 1))
    by (intros n sc; subst u16; unfold snip16uint; destruct sc; apply Haddr).
  assert (A32 : forall n sc, Operation.OpCode (u32 n sc) = uint16 (40000 + Opcode p n - 1))
    by (intros n sc; subst u32; unfold snip32; destruct sc; apply Haddr).
  split; [|split; [|split; [|split; [|split; [|split; [|split]]]]]].
  - split; [apply A16|]. split; [|apply A32].
    subst i16. unfold snip16int. destruct scaler; apply Haddr.
  - subst u16 i16 u32. unfold snip16uint, snip16int, snip32.
    destruct scaler; repeat split.
  - subst u16 i16 u32. unfold snip16uint, snip16int, snip32.
    destruct scaler; repeat split.
  - repeat split.
  - intros s0 rest. repeat split.
  - intros Hhd. subst u16 i16 u32. unfold snip16uint, snip16int, snip32.
    destruct scaler as [|s0 rest], scaler' as [|s0' rest']; cbn in Hhd;
      try discriminate; [repeat split|].
    injection Hhd as <-. repeat split.
  - rewrite A16, A32, <- !Haddr. split.
    + apply address_injective; apply Hp.
    + intros ->. reflexivity.
  - intros Hop. rewrite A16, uint16_small by lia. lia.
Qed.

End SingleValueBuilders.

Lemma single_value_builders_witness :
  Operation.OpCode
    (snip16uint 3 example_core RTUUint16ToFloat64WithNaN uint32_decoder 10 [0.1%float])
  = 40009.
Proof.
  destruct (single_value_builders Z 3 example_core
              RTUUint16ToFloat64WithNaN uint32_decoder
              RTUUint16ToFloat64WithNaN uint32_decoder
              RTUUint16ToFloat64WithNaN uint32_decoder
              10 12 [0.1%float] [] example_core_uint16)
    as (_ & _ & _ & _ & _ & _ & _ & Hexact).
  apply Hexact. cbn. lia.
Defined.

(** ** The registers the common block decoder needs *)

Section CommonBlockRegisters.

Variable Measurement : Type.
Variable ReadHoldingReg : Z.
Variable NoMeasurement : Measurement.

(** For a response of [n] registers, [2*n] bytes without spare capacity,
    that begins with the signature: the decoder returns the buffer-too-short
    error below 43 registers, panics from 43 to 67 registers, and returns a
    descriptor exactly from 68 registers on; the register count of
    [GetSunSpecCommonBlock] lies in the range of the panic. *)
Theorem common_block_registers_needed (n : Z) (b : bytes) :
  len b = 2 * n -> cap b = len b -> has_signature b ->
  ((exists d, DecodeSunSpecCommonBlock b = Returns (d, None)) <-> 68 <= n) /\
  (n < 43 -> DecodeSunSpecCommonBlock b = Returns (zero_descriptor, Some err_too_short)) /\
  (43 <= n < 68 -> DecodeSunSpecCommonBlock b = Panics) /\
  43 <= Operation.ReadLen (GetSunSpecCommonBlock ReadHoldingReg NoMeasurement) < 68.
Proof.
  intros Hlen Hcap Hsig.
  assert (Hshort : n < 43 ->
            DecodeSunSpecCommonBlock b = Returns (zero_descriptor, Some err_too_short))
    by (intros Hn; apply Decode_too_short; unfold sunspecSerial; lia).
  assert (Hpanic : 43 <= n < 68 -> DecodeSunSpecCommonBlock b = Panics)
    by (intros Hn; apply Decode_panics; [unfold sunspecSerial; lia | exact Hsig | lia]).
  split; [|split; [exact Hshort | split; [exact Hpanic|]]].
  - split.
    + intros (d & Hd).
      destruct (Z_lt_le_dec n 43) as [Hn|Hn]; [rewrite Hshort in Hd by exact Hn; discriminate|].
      destruct (Z_lt_le_dec n 68) as [Hn'|Hn']; [|exact Hn'].
      rewrite Hpanic in Hd by lia. discriminate.
    + intros Hn. eexists. apply Decode_returns; [unfold sunspecSerial; lia | exact Hsig | lia].
  - cbn [GetSunSpecCommonBlock Operation.ReadLen]. unfold sunspecSerial. lia.
Qed.

End CommonBlockRegisters.

Lemma common_block_registers_needed_witness :
  exists d, DecodeSunSpecCommonBlock padded_block = Returns (d, None).
Proof.
  apply (proj1 (common_block_registers_needed Z 3 0 68 padded_block
                  eq_refl eq_refl eq_refl)).
  vm_compute. discriminate.
Defined.
